(** * sumo-tools: a shallow embedding of the metric accumulators and the
    step collector, with the properties of their specification.

    Sources embedded: [metrics.py] (WaitingTime, Throughput),
    [visualisation.py] (FundamentalDiagram, TimeDistance; the pandas and
    matplotlib exports are presentation and are left out) and
    [data_collector.py] (DataCollector).

    Python objects are mutable and shared by reference: accumulators live in
    a store indexed by references, the collector holds references, and every
    method is a computation in a state-and-exception monad in which a raised
    exception keeps the mutations made before it. *)

From Stdlib Require Import ZArith PrimFloat Uint63 Lia.
From stdpp Require Import gmap strings list fin_maps.
From Equations Require Import Equations.

Local Open Scope Z_scope.

(** ** Python values and primitives *)

(** The exceptions the embedded code can raise. [DanglingRef] is not a Python
    exception: it is what the model answers when a reference has no object in
    the store, which Python's memory model excludes. *)
Inductive exn : Set :=
  | IndexError
  | KeyError
  | ZeroDivisionError
  | DanglingRef.

Global Instance exn_eq_dec : EqDecision exn.
Proof. solve_decision. Defined.

(** Python numbers as the code mixes them: [int] and [float] (binary64). *)
Inductive number : Set :=
  | PInt (z : Z)
  | PFloat (f : float).

(** [float(z)] for the integers the simulation produces (exact below 2^53). *)
Definition float_of_Z (z : Z) : float :=
  if z <? 0 then PrimFloat.opp (PrimFloat.of_uint63 (Uint63.of_Z (- z)))
  else PrimFloat.of_uint63 (Uint63.of_Z z).

Definition to_float (x : number) : float :=
  match x with
  | PInt z => float_of_Z z
  | PFloat f => f
  end.

(** [x + y]: integer addition on two ints, float addition otherwise. *)
Definition py_add (x y : number) : number :=
  match x, y with
  | PInt a, PInt b => PInt (a + b)
  | _, _ => PFloat (PrimFloat.add (to_float x) (to_float y))
  end.

(** [x * f] for a float [f]. *)
Definition py_mul_float (x : number) (f : float) : number :=
  PFloat (PrimFloat.mul (to_float x) f).

(** [x / n] for an int [n]: true division, which raises on a zero divisor. *)
Definition py_truediv (x : number) (n : Z) : exn + number :=
  if decide (n = 0) then inl ZeroDivisionError
  else inr (PFloat (PrimFloat.div (to_float x) (float_of_Z n))).

(** [sum(xs)]: left to right, starting from the int 0. *)
Definition py_sum (xs : list number) : number :=
  fold_left py_add xs (PInt 0).

(** The literal [3.6] (its nearest binary64 value). *)
Definition kmph_factor : float := 0x1.ccccccccccccdp+1%float.

(** [np.NaN], the "missing" sentinel of a slot array. *)
Definition NaN : number := PFloat PrimFloat.nan.

(** Index resolution of a Python sequence of length [len]: indices
    [0 .. len-1] count from the front, [-len .. -1] from the end, anything
    else is out of range. *)
Definition py_index (len : nat) (i : Z) : option nat :=
  if decide (0 <= i < Z.of_nat len) then Some (Z.to_nat i)
  else if decide (- Z.of_nat len <= i < 0) then Some (Z.to_nat (Z.of_nat len + i))
  else None.

(** [l[i]] *)
Definition py_getitem {A} (l : list A) (i : Z) : exn + A :=
  match py_index (length l) i with
  | Some n => match l !! n with Some x => inr x | None => inl IndexError end
  | None => inl IndexError
  end.

(** [l[i] = x] *)
Definition py_setitem {A} (l : list A) (i : Z) (x : A) : exn + list A :=
  match py_index (length l) i with
  | Some n => inr (<[n:=x]> l)
  | None => inl IndexError
  end.

(** [l.pop()] on a list already known to be non-empty. *)
Definition py_pop {A} (l : list A) : list A := removelast l.

(** [[x] * n]: the empty list when [n] is not positive. *)
Definition py_repeat {A} (x : A) (n : Z) : list A := replicate (Z.to_nat n) x.

(** [s.endswith(suffix)] *)
Definition endswith (s suffix : string) : bool :=
  bool_decide (String.length suffix ≤ String.length s)%nat &&
  String.eqb
    (String.substring (String.length s - String.length suffix)
       (String.length suffix) s)
    suffix.

(** ** State and exceptions *)

(** A method over a mutable state [S]: it returns the state as mutated so
    far together with either the exception raised or the result. *)
Definition M (S A : Type) : Type := S → S * (exn + A).

Definition ret {S A} (a : A) : M S A := λ s, (s, inr a).
Definition raise {S A} (e : exn) : M S A := λ s, (s, inl e).
Definition bind {S A B} (m : M S A) (k : A → M S B) : M S B :=
  λ s, match m s with
       | (s', inr a) => k a s'
       | (s', inl e) => (s', inl e)
       end.
Definition get {S} : M S S := λ s, (s, inr s).
Definition put {S} (s : S) : M S unit := λ _, (s, inr tt).
Definition modify {S} (f : S → S) : M S unit := λ s, (f s, inr tt).
Definition lift_exn {S A} (r : exn + A) : M S A := λ s, (s, r).

Declare Scope py_scope.
Delimit Scope py_scope with py.
Notation "'let!' x := m 'in' k" := (bind m (λ x, k))
  (at level 10, x name, m at level 100, k at level 200) : py_scope.
Notation "m ;> k" := (bind m (λ _, k))
  (at level 100, k at level 200, right associativity) : py_scope.
Local Open Scope py_scope.

(** [for x in l: body(x)] *)
Fixpoint for_each {S A} (l : list A) (body : A → M S unit) : M S unit :=
  match l with
  | [] => ret tt
  | x :: rest => body x ;> for_each rest body
  end.

(** Did the computation finish without raising? *)
Definition succeeded {S A} (r : S * (exn + A)) : Prop :=
  match r.2 with inr _ => True | inl _ => False end.

Definition raised {S A} (e : exn) (r : S * (exn + A)) : Prop := r.2 = inl e.

(** ** metrics.py *)

Module WaitingTime.

Record t : Type := mk {
  waiting_times : list (gmap string number)
}.

(** [__init__] *)
Definition init : t := {| waiting_times := [] |}.

(** [update]: [self.waiting_times.append(average_waiting_times)] *)
Definition update (average_waiting_times : gmap string number) : M t unit :=
  modify (λ self, {| waiting_times := waiting_times self ++ [average_waiting_times] |}).

End WaitingTime.

Module Throughput.

Record t : Type := mk {
  vehicles_in_edge : gmap string (gset string);
  vehicles_left_count : gmap string (list Z);
  edge_ids : option (list string)
}.

Definition set_vehicles_in_edge (f : gmap string (gset string) → gmap string (gset string)) (self : t) : t :=
  {| vehicles_in_edge := f (vehicles_in_edge self);
     vehicles_left_count := vehicles_left_count self;
     edge_ids := edge_ids self |}.

Definition set_vehicles_left_count (f : gmap string (list Z) → gmap string (list Z)) (self : t) : t :=
  {| vehicles_in_edge := vehicles_in_edge self;
     vehicles_left_count := f (vehicles_left_count self);
     edge_ids := edge_ids self |}.

(** [__init__(edge_ids = None)] *)
Definition init (edge_ids : option (list string)) : t :=
  {| vehicles_in_edge := ∅; vehicles_left_count := ∅; edge_ids := edge_ids |}.

(** [update(edge_id, vehicle_ids)]. The set passed is stored as it is; the
    collector passes a set built for the call. *)
Definition update (edge_id : string) (vehicle_ids : gset string) : M t unit :=
  let! self := get in
  let! left_count :=
    match vehicles_in_edge self !! edge_id with
    | Some previous => ret (Z.of_nat (size (previous ∖ vehicle_ids)))
    | None =>
        modify (set_vehicles_left_count <[edge_id := []]>) ;>
        ret 0
    end in
  modify (set_vehicles_in_edge <[edge_id := vehicle_ids]>) ;>
  let! self := get in
  match vehicles_left_count self !! edge_id with
  | Some counts =>
      put (set_vehicles_left_count <[edge_id := counts ++ [left_count]]> self)
  | None => raise KeyError
  end.

End Throughput.

(** ** visualisation.py *)

Module FundamentalDiagram.

Record t : Type := mk {
  edge_id : string;
  data : gmap string (list number);
  vehicles_in_edge : gset string;
  edge_length : number
}.

Definition set_data (f : gmap string (list number) → gmap string (list number)) (self : t) : t :=
  {| edge_id := edge_id self; data := f (data self);
     vehicles_in_edge := vehicles_in_edge self; edge_length := edge_length self |}.

Definition set_vehicles_in_edge (v : gset string) (self : t) : t :=
  {| edge_id := edge_id self; data := data self;
     vehicles_in_edge := v; edge_length := edge_length self |}.

Definition set_edge_length (x : number) (self : t) : t :=
  {| edge_id := edge_id self; data := data self;
     vehicles_in_edge := vehicles_in_edge self; edge_length := x |}.

(** [__init__(edge_id)] *)
Definition init (edge_id : string) : t :=
  {| edge_id := edge_id;
     data := <["speed" := []]> (<["flow" := []]> (<["vehicle_count" := []]> ∅));
     vehicles_in_edge := ∅;
     edge_length := PInt 0 |}.

(** [self.data[key].append(x)] *)
Definition data_append (key : string) (x : number) : M t unit :=
  let! self := get in
  match data self !! key with
  | Some column => put (set_data <[key := column ++ [x]]> self)
  | None => raise KeyError
  end.

(** [update(mean_speed, vehicle_ids)] *)
Definition update (mean_speed : number) (vehicle_ids : gset string) : M t unit :=
  data_append "speed" (py_mul_float mean_speed kmph_factor) ;>
  let count := Z.of_nat (size vehicle_ids) in
  data_append "vehicle_count" (PInt count) ;>
  let! self := get in
  let vehicles_left_count := Z.of_nat (size (vehicles_in_edge self ∖ vehicle_ids)) in
  modify (set_vehicles_in_edge vehicle_ids) ;>
  data_append "flow" (PInt vehicles_left_count).

End FundamentalDiagram.

Module TimeDistance.

Record t : Type := mk {
  data : gmap string (list number);
  route_edges : string * string;
  timespan : Z * Z;
  time_diff : Z;
  start_time : Z
}.

Definition set_data (f : gmap string (list number) → gmap string (list number)) (self : t) : t :=
  {| data := f (data self); route_edges := route_edges self;
     timespan := timespan self; time_diff := time_diff self;
     start_time := start_time self |}.

(** [__init__(route_edges, timespan)] *)
Definition init (route_edges : string * string) (timespan : Z * Z) : t :=
  {| data := ∅;
     route_edges := route_edges;
     timespan := timespan;
     time_diff := timespan.2 - timespan.1;
     start_time := timespan.1 |}.

(** [update(vehicle_id, distance, time)] *)
Definition update (vehicle_id : string) (distance : number) (time : Z) : M t unit :=
  let! self := get in
  let time_delta := time - start_time self in
  (if decide (data self !! vehicle_id = None)
   then modify (set_data <[vehicle_id := py_repeat NaN (time_diff self)]>)
   else ret tt) ;>
  let! self := get in
  match data self !! vehicle_id with
  | Some slots =>
      let! slots' := lift_exn (py_setitem slots time_delta distance) in
      put (set_data <[vehicle_id := slots']> self)
  | None => raise KeyError
  end.

End TimeDistance.

(** ** The simulation adapter (traci / libsumo) *)

(** What the simulation answers to the read-only queries the collector makes
    during one call; identifiers are strings, measures are floats. *)
Record Traci : Type := {
  edge_getIDList : list string;
  edge_getWaitingTime : string → float;
  edge_getLastStepVehicleNumber : string → Z;
  edge_getLastStepVehicleIDs : string → list string;
  lane_getIDList : list string;
  lane_getEdgeID : string → string;
  lane_getLength : string → float;
  vehicle_getIDList : list string;
  vehicle_getTeleportingIDList : list string;
  vehicle_getSpeed : string → float;
  vehicle_getRoute : string → list string;
  vehicle_getDistance : string → float
}.

(** Calls that change the adapter's listener registry. *)
Inductive traci_call : Set :=
  | AddStepListener (id : Z)
  | RemoveStepListener (id : Z).

(** ** The store *)

(** References to accumulator objects; [==] on accumulators is identity. *)
Definition ref : Set := nat.

Record World : Type := {
  waiting_times : gmap ref WaitingTime.t;
  throughputs : gmap ref Throughput.t;
  fundamental_diagrams : gmap ref FundamentalDiagram.t;
  time_distances : gmap ref TimeDistance.t;
  next_listener : Z;
  traci_calls : list traci_call
}.

Definition empty_world : World :=
  {| waiting_times := ∅; throughputs := ∅; fundamental_diagrams := ∅;
     time_distances := ∅; next_listener := 0; traci_calls := [] |}.

Definition set_waiting_times (h : gmap ref WaitingTime.t) (w : World) : World :=
  {| waiting_times := h; throughputs := throughputs w;
     fundamental_diagrams := fundamental_diagrams w;
     time_distances := time_distances w;
     next_listener := next_listener w; traci_calls := traci_calls w |}.

Definition set_throughputs (h : gmap ref Throughput.t) (w : World) : World :=
  {| waiting_times := waiting_times w; throughputs := h;
     fundamental_diagrams := fundamental_diagrams w;
     time_distances := time_distances w;
     next_listener := next_listener w; traci_calls := traci_calls w |}.

Definition set_fundamental_diagrams (h : gmap ref FundamentalDiagram.t) (w : World) : World :=
  {| waiting_times := waiting_times w; throughputs := throughputs w;
     fundamental_diagrams := h;
     time_distances := time_distances w;
     next_listener := next_listener w; traci_calls := traci_calls w |}.

Definition set_time_distances (h : gmap ref TimeDistance.t) (w : World) : World :=
  {| waiting_times := waiting_times w; throughputs := throughputs w;
     fundamental_diagrams := fundamental_diagrams w;
     time_distances := h;
     next_listener := next_listener w; traci_calls := traci_calls w |}.

(** Run a method of the object a reference points to. *)
Definition on_object {S O A} (heap : S → gmap ref O) (set_heap : gmap ref O → S → S)
    (r : ref) (m : M O A) : M S A :=
  λ s, match heap s !! r with
       | Some o => let '(o', res) := m o in (set_heap (<[r := o']> (heap s)) s, res)
       | None => (s, inl DanglingRef)
       end.

(** Allocate a freshly constructed object and return its reference. *)
Definition alloc {S O} (heap : S → gmap ref O) (set_heap : gmap ref O → S → S)
    (o : O) : M S ref :=
  λ s, let r := fresh (dom (heap s)) in (set_heap (<[r := o]> (heap s)) s, inr r).

(** Run a computation over a local variable initialised to [init]; its final
    value is the result. *)
Definition local {S L} (init : L) (m : M L unit) : M S L :=
  λ s, match m init with
       | (l, inr _) => (s, inr l)
       | (_, inl e) => (s, inl e)
       end.

(** [WaitingTime()], [Throughput(edge_ids)], [FundamentalDiagram(edge_id)],
    [TimeDistance(route_edges, timespan)] as the caller evaluates them. *)
Definition new_WaitingTime : M World ref :=
  alloc waiting_times set_waiting_times WaitingTime.init.
Definition new_Throughput (edge_ids : option (list string)) : M World ref :=
  alloc throughputs set_throughputs (Throughput.init edge_ids).
Definition new_FundamentalDiagram (edge_id : string) : M World ref :=
  alloc fundamental_diagrams set_fundamental_diagrams (FundamentalDiagram.init edge_id).
Definition new_TimeDistance (route_edges : string * string) (timespan : Z * Z) : M World ref :=
  alloc time_distances set_time_distances (TimeDistance.init route_edges timespan).

(** [traci.addStepListener(listener)]: registers and returns the new handle. *)
Definition addStepListener : M World Z :=
  λ w, ({| waiting_times := waiting_times w; throughputs := throughputs w;
           fundamental_diagrams := fundamental_diagrams w;
           time_distances := time_distances w;
           next_listener := next_listener w + 1;
           traci_calls := traci_calls w ++ [AddStepListener (next_listener w)] |},
        inr (next_listener w)).

(** [traci.removeStepListener(id)] *)
Definition removeStepListener (id : Z) : M World unit :=
  modify (λ w, {| waiting_times := waiting_times w; throughputs := throughputs w;
                  fundamental_diagrams := fundamental_diagrams w;
                  time_distances := time_distances w;
                  next_listener := next_listener w;
                  traci_calls := traci_calls w ++ [RemoveStepListener id] |}).

(** ** data_collector.py *)

(** Keeps the equation of the value a [with] clause matches on. *)
Definition inspect {A : Type} (x : A) : { y : A | x = y } := exist _ x eq_refl.

Module DataCollector.

Record t : Type := mk {
  id : option Z;
  edges : list string;
  waiting_time : option ref;
  throughput : option ref;
  fundamental_diagram : option ref;
  time_distance_diagram : option ref;
  step_count : Z
}.

(** What a method of the collector runs on: the collector object [self]
    and the world it holds references into. *)
Record state : Type := {
  self : t;
  world : World
}.

Definition get_self : M state t := λ s, (s, inr (self s)).
Definition set_self (f : t → t) : M state unit :=
  modify (λ s, {| self := f (self s); world := world s |}).
Definition in_world {A} (m : M World A) : M state A :=
  λ s, let '(w, res) := m (world s) in ({| self := self s; world := w |}, res).

Definition set_id (x : option Z) (dc : t) : t :=
  {| id := x; edges := edges dc; waiting_time := waiting_time dc;
     throughput := throughput dc; fundamental_diagram := fundamental_diagram dc;
     time_distance_diagram := time_distance_diagram dc; step_count := step_count dc |}.
Definition set_waiting_time (x : option ref) (dc : t) : t :=
  {| id := id dc; edges := edges dc; waiting_time := x;
     throughput := throughput dc; fundamental_diagram := fundamental_diagram dc;
     time_distance_diagram := time_distance_diagram dc; step_count := step_count dc |}.
Definition set_throughput (x : option ref) (dc : t) : t :=
  {| id := id dc; edges := edges dc; waiting_time := waiting_time dc;
     throughput := x; fundamental_diagram := fundamental_diagram dc;
     time_distance_diagram := time_distance_diagram dc; step_count := step_count dc |}.
Definition set_fundamental_diagram (x : option ref) (dc : t) : t :=
  {| id := id dc; edges := edges dc; waiting_time := waiting_time dc;
     throughput := throughput dc; fundamental_diagram := x;
     time_distance_diagram := time_distance_diagram dc; step_count := step_count dc |}.
Definition set_time_distance_diagram (x : option ref) (dc : t) : t :=
  {| id := id dc; edges := edges dc; waiting_time := waiting_time dc;
     throughput := throughput dc; fundamental_diagram := fundamental_diagram dc;
     time_distance_diagram := x; step_count := step_count dc |}.
Definition set_step_count (x : Z) (dc : t) : t :=
  {| id := id dc; edges := edges dc; waiting_time := waiting_time dc;
     throughput := throughput dc; fundamental_diagram := fundamental_diagram dc;
     time_distance_diagram := time_distance_diagram dc; step_count := x |}.

(** [edge.endswith('-sink') or edge.endswith('-source')] *)
Definition is_boundary (edge : string) : bool :=
  endswith edge "-sink" || endswith edge "-source".

(** The loop of [__init__]:
    [while is_boundary(edges[-1]): edges.pop()].
    It ends because every iteration shortens the list. *)
Equations? trim (edges : list string) : exn + list string by wf (length edges) lt :=
  trim edges with inspect (py_getitem edges (-1)) := {
    | exist _ (inl e) _ => inl e
    | exist _ (inr final) H =>
        if is_boundary final then trim (py_pop edges) else inr edges }.
Proof.
  clear trim. revert H.
  destruct edges0 as [|x l _] using rev_ind; intros H; [by vm_compute in H|].
  unfold py_pop. rewrite removelast_last, length_app. simpl. lia.
Qed.

(** [__init__] *)
Definition init (traci : Traci) : M World t :=
  let! id := addStepListener in
  let edges := edge_getIDList traci in
  let! edges := lift_exn (trim edges) in
  ret {| id := Some id;
         edges := edges;
         waiting_time := None;
         throughput := None;
         fundamental_diagram := None;
         time_distance_diagram := None;
         step_count := 0 |}.

(** [stop_collecting] *)
Definition stop_collecting : M state unit :=
  let! dc := get_self in
  match id dc with
  | Some handle =>
      in_world (removeStepListener handle) ;>
      set_self (set_id None)
  | None => ret tt
  end.

(** [initialised] *)
Definition initialised : M state bool :=
  let! dc := get_self in
  ret (bool_decide (id dc ≠ None)).

(** [add_waiting_time] *)
Definition add_waiting_time (waiting_time : ref) : M state unit :=
  set_self (set_waiting_time (Some waiting_time)).

(** [remove_waiting_time]. The accumulator classes define no [__eq__], so
    [self.waiting_time == waiting_time] holds exactly when both are the same
    object; the same goes for the other three [remove_*] methods. *)
Definition remove_waiting_time (waiting_time : ref) : M state bool :=
  let! dc := get_self in
  if decide (DataCollector.waiting_time dc = Some waiting_time) then
    set_self (set_waiting_time None) ;>
    ret true
  else ret false.

(** [add_throughput] *)
Definition add_throughput (throughput : ref) : M state unit :=
  set_self (set_throughput (Some throughput)).

(** [remove_throughput] *)
Definition remove_throughput (throughput : ref) : M state bool :=
  let! dc := get_self in
  if decide (DataCollector.throughput dc = Some throughput) then
    set_self (set_throughput None) ;>
    ret true
  else ret false.

(** The loop of [add_fundamental_diagram], which stops at the first lane
    of the diagram's edge. *)
Fixpoint resolve_edge_length (traci : Traci) (fundamental_diagram : ref)
    (lanes : list string) : M World unit :=
  match lanes with
  | [] => ret tt
  | id :: rest =>
      let! fd := on_object fundamental_diagrams set_fundamental_diagrams
                   fundamental_diagram get in
      if decide (lane_getEdgeID traci id = FundamentalDiagram.edge_id fd) then
        let lane_length := lane_getLength traci id in
        on_object fundamental_diagrams set_fundamental_diagrams fundamental_diagram
          (modify (FundamentalDiagram.set_edge_length (PFloat lane_length)))
      else resolve_edge_length traci fundamental_diagram rest
  end.

(** [add_fundamental_diagram] *)
Definition add_fundamental_diagram (traci : Traci) (fundamental_diagram : ref) : M state unit :=
  set_self (set_fundamental_diagram (Some fundamental_diagram)) ;>
  in_world (resolve_edge_length traci fundamental_diagram (lane_getIDList traci)).

(** [remove_fundamental_diagram] *)
Definition remove_fundamental_diagram (fundamental_diagram : ref) : M state bool :=
  let! dc := get_self in
  if decide (DataCollector.fundamental_diagram dc = Some fundamental_diagram) then
    set_self (set_fundamental_diagram None) ;>
    ret true
  else ret false.

(** [add_time_distance_diagram] *)
Definition add_time_distance_diagram (time_distance_diagram : ref) : M state unit :=
  set_self (set_time_distance_diagram (Some time_distance_diagram)).

(** [remove_time_distance_diagram] *)
Definition remove_time_distance_diagram (time_distance_diagram : ref) : M state bool :=
  let! dc := get_self in
  if decide (DataCollector.time_distance_diagram dc = Some time_distance_diagram) then
    set_self (set_time_distance_diagram None) ;>
    ret true
  else ret false.

(** One entry of the waiting-time snapshot built by [step]:
    [average_wait_times[edge] = waiting_time/vehicle_count if vehicle_count != 0 else 0] *)
Definition average_wait_time (traci : Traci) (edge : string) : M (gmap string number) unit :=
  let waiting_time := edge_getWaitingTime traci edge in
  let vehicle_count := edge_getLastStepVehicleNumber traci edge in
  let! average :=
    if decide (vehicle_count ≠ 0)
    then lift_exn (py_truediv (PFloat waiting_time) vehicle_count)
    else ret (PInt 0) in
  modify <[edge := average]>.

Definition step_waiting_time (traci : Traci) (dc : t) : M World unit :=
  match waiting_time dc with
  | Some waiting_time =>
      let! average_wait_times := local ∅ (for_each (edges dc) (average_wait_time traci)) in
      on_object waiting_times set_waiting_times waiting_time
        (WaitingTime.update average_wait_times)
  | None => ret tt
  end.

Definition step_throughput (traci : Traci) (dc : t) : M World unit :=
  match throughput dc with
  | Some throughput =>
      let! tp := on_object throughputs set_throughputs throughput get in
      let edge_ids_to_collect :=
        match Throughput.edge_ids tp with
        | Some edge_ids => edge_ids
        | None => edges dc
        end in
      for_each edge_ids_to_collect (λ edge_id,
        let vehicle_ids := edge_getLastStepVehicleIDs traci edge_id in
        on_object throughputs set_throughputs throughput
          (Throughput.update edge_id (list_to_set vehicle_ids)))
  | None => ret tt
  end.

Definition step_fundamental_diagram (traci : Traci) (dc : t) : M World unit :=
  match fundamental_diagram dc with
  | Some fundamental_diagram =>
      let! fd := on_object fundamental_diagrams set_fundamental_diagrams
                   fundamental_diagram get in
      let vehicle_ids := edge_getLastStepVehicleIDs traci (FundamentalDiagram.edge_id fd) in
      let vehicle_count := Z.of_nat (length vehicle_ids) in
      let! mean_velocity :=
        if decide (vehicle_count ≠ 0)
        then lift_exn (py_truediv
                         (py_sum (map (λ id, PFloat (vehicle_getSpeed traci id)) vehicle_ids))
                         vehicle_count)
        else ret (PInt 0) in
      on_object fundamental_diagrams set_fundamental_diagrams fundamental_diagram
        (FundamentalDiagram.update mean_velocity (list_to_set vehicle_ids))
  | None => ret tt
  end.

(** The set [vehicles] is iterated in the order of [elements]; Python
    leaves the order of a set unspecified. *)
Definition step_time_distance_diagram (traci : Traci) (dc : t) : M World unit :=
  match time_distance_diagram dc with
  | Some time_distance_diagram =>
      let! td := on_object time_distances set_time_distances time_distance_diagram get in
      if decide ((TimeDistance.timespan td).1 <= step_count dc
                 ∧ (TimeDistance.timespan td).2 > step_count dc) then
        let vehicles := vehicle_getIDList traci in
        let teleporting := vehicle_getTeleportingIDList traci in
        let vehicles : gset string := list_to_set vehicles ∖ list_to_set teleporting in
        for_each (elements vehicles) (λ vehicle,
          let route := vehicle_getRoute traci vehicle in
          let! origin := lift_exn (py_getitem route 0) in
          let! td := on_object time_distances set_time_distances time_distance_diagram get in
          if decide (origin = (TimeDistance.route_edges td).1) then
            let! destination := lift_exn (py_getitem route (-1)) in
            if decide (destination = (TimeDistance.route_edges td).2) then
              let distance := vehicle_getDistance traci vehicle in
              on_object time_distances set_time_distances time_distance_diagram
                (TimeDistance.update vehicle (PFloat distance) (step_count dc))
            else ret tt
          else ret tt)
      else ret tt
  | None => ret tt
  end.

(** [step(step)]: called by traci when a simulation step occurs. *)
Definition step (traci : Traci) (step : Z) : M state bool :=
  let! dc := get_self in
  in_world (step_waiting_time traci dc) ;>
  in_world (step_throughput traci dc) ;>
  in_world (step_fundamental_diagram traci dc) ;>
  in_world (step_time_distance_diagram traci dc) ;>
  set_self (λ dc, set_step_count (step_count dc + 1) dc) ;>
  ret true.

End DataCollector.

(** ** Vocabulary of the specification *)

(** A sequence of [Throughput.update] calls, each with its edge and the
    vehicle set passed for it. *)
Definition run_updates (calls : list (string * gset string)) : M Throughput.t unit :=
  for_each calls (λ call, Throughput.update call.1 call.2).

(** The vehicle sets observed for [edge] along a sequence of calls. *)
Definition observations (edge : string) (calls : list (string * gset string)) : list (gset string) :=
  (filter (λ call, call.1 = edge) calls).*2.

(** The departed-count of an observation: 0 without a previous one,
    otherwise the number of vehicles of the previous set that are gone. *)
Definition departed (previous : option (gset string)) (now : gset string) : Z :=
  match previous with
  | None => 0
  | Some previous => Z.of_nat (size (previous ∖ now))
  end.

(** The departed-counts of the observations [obs] that follow [previous]. *)
Fixpoint departed_from (previous : option (gset string)) (obs : list (gset string)) : list Z :=
  match obs with
  | [] => []
  | now :: later => departed previous now :: departed_from (Some now) later
  end.

(** The departed-counts of a whole sequence of observations of one edge. *)
Definition departed_counts (obs : list (gset string)) : list Z := departed_from None obs.

(** What a Throughput accumulator holds after a sequence of calls: for
    every edge the last set observed and the counts recorded so far. *)
Definition Throughput_tracks (calls : list (string * gset string)) (tp : Throughput.t) : Prop :=
  ∀ edge,
    Throughput.vehicles_in_edge tp !! edge = last (observations edge calls) ∧
    Throughput.vehicles_left_count tp !! edge =
      (if decide (observations edge calls = []) then None
       else Some (departed_counts (observations edge calls))).

(** The slot array [update] works on: the vehicle's own, or a fresh
    sentinel-filled one when the vehicle is seen for the first time. *)
Definition slots_of (td : TimeDistance.t) (vehicle : string) : list number :=
  default (py_repeat NaN (TimeDistance.time_diff td)) (TimeDistance.data td !! vehicle).

(** What [__init__] establishes and every [update] keeps. *)
Definition TimeDistance_wf (td : TimeDistance.t) : Prop :=
  TimeDistance.time_diff td = (TimeDistance.timespan td).2 - (TimeDistance.timespan td).1 ∧
  TimeDistance.start_time td = (TimeDistance.timespan td).1 ∧
  ∀ vehicle slots,
    TimeDistance.data td !! vehicle = Some slots →
    length slots = Z.to_nat (TimeDistance.time_diff td).

(** The accumulators a program can hold: a constructed one, after any
    number of [update] calls, whether they returned or raised. *)
Inductive TimeDistance_reachable : TimeDistance.t → Prop :=
  | reachable_init route_edges timespan :
      TimeDistance_reachable (TimeDistance.init route_edges timespan)
  | reachable_update td vehicle distance time :
      TimeDistance_reachable td →
      TimeDistance_reachable (TimeDistance.update vehicle distance time td).1.

(** A sequence of [FundamentalDiagram.update] calls, each with its mean
    speed and vehicle set. *)
Definition run_diagram_updates (calls : list (number * gset string)) : M FundamentalDiagram.t unit :=
  for_each calls (λ call, FundamentalDiagram.update call.1 call.2).

(** The three columns are present and all have [n] entries. *)
Definition columns_of_length (n : nat) (fd : FundamentalDiagram.t) : Prop :=
  ∃ speed flow vehicle_count,
    FundamentalDiagram.data fd !! "speed" = Some speed ∧
    FundamentalDiagram.data fd !! "flow" = Some flow ∧
    FundamentalDiagram.data fd !! "vehicle_count" = Some vehicle_count ∧
    length speed = n ∧ length flow = n ∧ length vehicle_count = n.

(** [m] leaves the part [proj] of the state as it found it, whether it
    returns or raises. *)
Definition keeps {S A X} (proj : S → X) (m : M S A) : Prop :=
  ∀ s, proj (m s).1 = proj s.

(** [m] never raises [e]. *)
Definition never {S A} (e : exn) (m : M S A) : Prop :=
  ∀ s, (m s).2 ≠ inl e.

(** The average the snapshot holds for an edge. *)
Definition average_of (traci : Traci) (edge : string) : number :=
  if decide (edge_getLastStepVehicleNumber traci edge = 0) then PInt 0
  else PFloat (PrimFloat.div (edge_getWaitingTime traci edge)
                 (float_of_Z (edge_getLastStepVehicleNumber traci edge))).

(** The snapshot the loop over the tracked edges builds on top of [init]. *)
Definition snapshot_of (traci : Traci) (edges : list string) (init : gmap string number)
    : gmap string number :=
  fold_left (λ acc edge, <[edge := average_of traci edge]> acc) edges init.

(** A two-edge network at a step where edge "E1" is empty and two vehicles
    on "E0" have waited 3 seconds in total. *)
Definition sample_traci : Traci :=
  {| edge_getIDList := ["E0"; "E1"; "E1-sink"];
     edge_getWaitingTime := λ edge, if String.eqb edge "E0" then 3%float else 0%float;
     edge_getLastStepVehicleNumber := λ edge, if String.eqb edge "E0" then 2 else 0;
     edge_getLastStepVehicleIDs := λ edge, if String.eqb edge "E0" then ["veh0"; "veh1"] else [];
     lane_getIDList := ["E0_0"; "E1_0"];
     lane_getEdgeID := λ lane, if String.eqb lane "E0_0" then "E0" else "E1";
     lane_getLength := λ _, 100%float;
     vehicle_getIDList := ["veh0"; "veh1"];
     vehicle_getTeleportingIDList := [];
     vehicle_getSpeed := λ _, 10%float;
     vehicle_getRoute := λ _, ["E0"; "E1"];
     vehicle_getDistance := λ _, 42%float |}.

(** A collector tracking "E0" and "E1" with a fresh WaitingTime accumulator
    attached, at reference 0. *)
Definition sample_state : DataCollector.state :=
  {| DataCollector.self :=
       {| DataCollector.id := Some 0;
          DataCollector.edges := ["E0"; "E1"];
          DataCollector.waiting_time := Some 0%nat;
          DataCollector.throughput := None;
          DataCollector.fundamental_diagram := None;
          DataCollector.time_distance_diagram := None;
          DataCollector.step_count := 0 |};
     DataCollector.world :=
       set_waiting_times {[ 0%nat := WaitingTime.init ]} empty_world |}.

(** Drops the boundary edges a list starts with. *)
Fixpoint strip_boundary_front (edges : list string) : list string :=
  match edges with
  | [] => []
  | edge :: rest =>
      if DataCollector.is_boundary edge then strip_boundary_front rest else edges
  end.

(** The edge list with all its trailing boundary edges removed. *)
Definition without_trailing_boundary (edges : list string) : list string :=
  rev (strip_boundary_front (rev edges)).

(** A network whose edges all carry a boundary suffix. *)
Definition boundary_only_traci : Traci :=
  {| edge_getIDList := ["E0-source"; "E0-sink"];
     edge_getWaitingTime := λ _, 0%float;
     edge_getLastStepVehicleNumber := λ _, 0;
     edge_getLastStepVehicleIDs := λ _, [];
     lane_getIDList := ["E0-source_0"; "E0-sink_0"];
     lane_getEdgeID := λ lane, if String.eqb lane "E0-source_0" then "E0-source" else "E0-sink";
     lane_getLength := λ _, 100%float;
     vehicle_getIDList := [];
     vehicle_getTeleportingIDList := [];
     vehicle_getSpeed := λ _, 0%float;
     vehicle_getRoute := λ _, [];
     vehicle_getDistance := λ _, 0%float |}.

(** The four accumulator kinds and what the collector does per kind. *)
Inductive kind : Set :=
  | WaitingTimeKind
  | ThroughputKind
  | FundamentalDiagramKind
  | TimeDistanceKind.

(** The collector's slot of a kind. *)
Definition slot (k : kind) (dc : DataCollector.t) : option ref :=
  match k with
  | WaitingTimeKind => DataCollector.waiting_time dc
  | ThroughputKind => DataCollector.throughput dc
  | FundamentalDiagramKind => DataCollector.fundamental_diagram dc
  | TimeDistanceKind => DataCollector.time_distance_diagram dc
  end.

(** The collector with the slot of a kind set to [x]. *)
Definition set_slot (k : kind) (x : option ref) (dc : DataCollector.t) : DataCollector.t :=
  match k with
  | WaitingTimeKind => DataCollector.set_waiting_time x dc
  | ThroughputKind => DataCollector.set_throughput x dc
  | FundamentalDiagramKind => DataCollector.set_fundamental_diagram x dc
  | TimeDistanceKind => DataCollector.set_time_distance_diagram x dc
  end.

(** The [remove_*] method of a kind. *)
Definition remove (k : kind) (accumulator : ref) : M DataCollector.state bool :=
  match k with
  | WaitingTimeKind => DataCollector.remove_waiting_time accumulator
  | ThroughputKind => DataCollector.remove_throughput accumulator
  | FundamentalDiagramKind => DataCollector.remove_fundamental_diagram accumulator
  | TimeDistanceKind => DataCollector.remove_time_distance_diagram accumulator
  end.

(** A collector with a FundamentalDiagram for edge "E9" in the store, which
    no lane of [sample_traci] belongs to. *)
Definition unresolved_state : DataCollector.state :=
  {| DataCollector.self :=
       {| DataCollector.id := Some 0;
          DataCollector.edges := ["E0"; "E1"];
          DataCollector.waiting_time := None;
          DataCollector.throughput := None;
          DataCollector.fundamental_diagram := None;
          DataCollector.time_distance_diagram := None;
          DataCollector.step_count := 0 |};
     DataCollector.world :=
       set_fundamental_diagrams {[ 0%nat := FundamentalDiagram.init "E9" ]} empty_world |}.

(** Every edge with a stored vehicle set has a list of counts, and
    conversely: what [Throughput.__init__] establishes. *)
Definition Throughput_consistent (tp : Throughput.t) : Prop :=
  dom (Throughput.vehicles_in_edge tp) = dom (Throughput.vehicles_left_count tp).

(** The accumulator after a sequence of [update] calls (vehicle, distance,
    step), each applied to what the previous one left, whether it returned
    or raised. *)
Definition TimeDistance_after (calls : list (string * number * Z)) (td : TimeDistance.t)
    : TimeDistance.t :=
  fold_left (λ td call, (TimeDistance.update call.1.1 call.1.2 call.2 td).1) calls td.

(** The [add_*] method of a kind. *)
Definition add (k : kind) (traci : Traci) (accumulator : ref) : M DataCollector.state unit :=
  match k with
  | WaitingTimeKind => DataCollector.add_waiting_time accumulator
  | ThroughputKind => DataCollector.add_throughput accumulator
  | FundamentalDiagramKind => DataCollector.add_fundamental_diagram traci accumulator
  | TimeDistanceKind => DataCollector.add_time_distance_diagram accumulator
  end.

(** What [step] does to the world: its four blocks, one per accumulator
    kind, in the order of the source. *)
Definition step_world (traci : Traci) (dc : DataCollector.t) : M World unit :=
  DataCollector.step_waiting_time traci dc ;>
  DataCollector.step_throughput traci dc ;>
  DataCollector.step_fundamental_diagram traci dc ;>
  DataCollector.step_time_distance_diagram traci dc.

(** [m] does the same whether [f] is applied to the state before or after. *)
Definition commutes {S A} (f : S → S) (m : M S A) : Prop :=
  ∀ s, m (f s) = (f (m s).1, (m s).2).

(** The world with one more adapter call logged. *)
Definition log_call (call : traci_call) (w : World) : World :=
  {| waiting_times := waiting_times w; throughputs := throughputs w;
     fundamental_diagrams := fundamental_diagrams w;
     time_distances := time_distances w;
     next_listener := next_listener w;
     traci_calls := traci_calls w ++ [call] |}.

(** A collector with a FundamentalDiagram for edge "E1" in the store; the
    second lane of [sample_traci] belongs to that edge. *)
Definition resolvable_state : DataCollector.state :=
  {| DataCollector.self := DataCollector.self unresolved_state;
     DataCollector.world :=
       set_fundamental_diagrams {[ 0%nat := FundamentalDiagram.init "E1" ]} empty_world |}.

(** An accumulator object of any kind. *)
Inductive accumulator : Type :=
  | AWaitingTime (a : WaitingTime.t)
  | AThroughput (a : Throughput.t)
  | AFundamentalDiagram (a : FundamentalDiagram.t)
  | ATimeDistance (a : TimeDistance.t).

(** The accumulator of kind [k] the store holds at reference [r], if any. *)
Definition object_at (k : kind) (r : ref) (w : World) : option accumulator :=
  match k with
  | WaitingTimeKind => AWaitingTime <$> waiting_times w !! r
  | ThroughputKind => AThroughput <$> throughputs w !! r
  | FundamentalDiagramKind => AFundamentalDiagram <$> fundamental_diagrams w !! r
  | TimeDistanceKind => ATimeDistance <$> time_distances w !! r
  end.

(** A heap of the store with its setter: reading after writing gives what
    was written, the last write wins, and writing back what is there
    changes nothing. *)
Class HeapLens {S O} (heap : S → gmap ref O) (set_heap : gmap ref O → S → S) : Prop := {
  heap_set : ∀ h s, heap (set_heap h s) = h;
  set_set : ∀ h h' s, set_heap h (set_heap h' s) = set_heap h s;
  set_heap_id : ∀ s, set_heap (heap s) s = s
}.

(** The world-level computation [mw] is the object-level computation [m]
    run on the object at [r], wherever that object exists. *)
Definition lifts {S O A} (heap : S → gmap ref O) (set_heap : gmap ref O → S → S)
    (r : ref) (m : M O A) (mw : M S A) : Prop :=
  ∀ s o, heap s !! r = Some o → mw s = on_object heap set_heap r m s.

(** What the Throughput block of [step] does to the attached accumulator:
    one [update] per edge of [edge_ids], or of the tracked edges when the
    accumulator has no [edge_ids]. *)
Definition throughput_block (traci : Traci) (edges : list string) : M Throughput.t unit :=
  let! tp := get in
  let edge_ids_to_collect :=
    match Throughput.edge_ids tp with
    | Some edge_ids => edge_ids
    | None => edges
    end in
  for_each edge_ids_to_collect (λ edge_id,
    Throughput.update edge_id (list_to_set (edge_getLastStepVehicleIDs traci edge_id))).

(** The mean speed [step] passes to the diagram for the vehicles on its
    edge: the int 0 for no vehicle, else the sum of the speeds divided by
    their number. *)
Definition mean_velocity_of (traci : Traci) (vehicle_ids : list string) : number :=
  match vehicle_ids with
  | [] => PInt 0
  | _ =>
      PFloat (PrimFloat.div
                (to_float (py_sum (map (λ id, PFloat (vehicle_getSpeed traci id)) vehicle_ids)))
                (float_of_Z (Z.of_nat (length vehicle_ids))))
  end.

(** The route starts at the first and ends at the second of the two edges. *)
Definition route_matches (route : list string) (route_edges : string * string) : Prop :=
  head route = Some route_edges.1 ∧ last route = Some route_edges.2.

(** What the loop body of the TimeDistance block of [step] does to the
    attached accumulator for one vehicle. *)
Definition record_vehicle (traci : Traci) (step_count : Z) (vehicle : string)
    : M TimeDistance.t unit :=
  let route := vehicle_getRoute traci vehicle in
  let! origin := lift_exn (py_getitem route 0) in
  let! td := get in
  if decide (origin = (TimeDistance.route_edges td).1) then
    let! destination := lift_exn (py_getitem route (-1)) in
    if decide (destination = (TimeDistance.route_edges td).2) then
      TimeDistance.update vehicle (PFloat (vehicle_getDistance traci vehicle)) step_count
    else ret tt
  else ret tt.

(** What the TimeDistance block of [step] does to the attached accumulator
    at step count [step_count]. *)
Definition time_distance_block (traci : Traci) (step_count : Z) : M TimeDistance.t unit :=
  let! td := get in
  if decide ((TimeDistance.timespan td).1 <= step_count
             ∧ (TimeDistance.timespan td).2 > step_count) then
    let vehicles : gset string :=
      list_to_set (vehicle_getIDList traci)
      ∖ list_to_set (vehicle_getTeleportingIDList traci) in
    for_each (elements vehicles) (record_vehicle traci step_count)
  else ret tt.

(** A collector with a fresh Throughput, FundamentalDiagram (edge "E0") and
    TimeDistance (route "E0" to "E1", window [0, 3)) attached, each at
    reference 0. *)
Definition attached_state : DataCollector.state :=
  {| DataCollector.self :=
       {| DataCollector.id := Some 0;
          DataCollector.edges := ["E0"; "E1"];
          DataCollector.waiting_time := None;
          DataCollector.throughput := Some 0%nat;
          DataCollector.fundamental_diagram := Some 0%nat;
          DataCollector.time_distance_diagram := Some 0%nat;
          DataCollector.step_count := 0 |};
     DataCollector.world :=
       {| waiting_times := ∅;
          throughputs := {[ 0%nat := Throughput.init None ]};
          fundamental_diagrams := {[ 0%nat := FundamentalDiagram.init "E0" ]};
          time_distances := {[ 0%nat := TimeDistance.init ("E0", "E1") (0, 3) ]};
          next_listener := 1;
          traci_calls := [AddStepListener 0] |} |}.

(** The collector driven through a sequence of simulation steps, the
    adapter's answers during each step given by a [Traci]; the run ends
    with the first step that raises. [step] makes no use of the argument
    the adapter passes it, which is 0 here. *)
Definition run_steps (steps : list Traci) : M DataCollector.state unit :=
  for_each steps (λ traci, DataCollector.step traci 0 ;> ret tt).

(** The [Throughput.update] calls of one step: one per collected edge, with
    the set of the vehicles the adapter reports on it. *)
Definition throughput_calls (traci : Traci) (edges : list string)
    : list (string * gset string) :=
  (λ edge, (edge, list_to_set (edge_getLastStepVehicleIDs traci edge))) <$> edges.

(** * Properties *)

Section Monad.
Context {S A : Type}.

Lemma for_each_app (l1 l2 : list A) (body : A → M S unit) s s' :
  for_each l1 body s = (s', inr tt) →
  for_each (l1 ++ l2) body s = for_each l2 body s'.
Proof.
  revert s. induction l1 as [|x l1 IH]; intros s; simpl.
  - unfold ret. by intros [= ->].
  - unfold bind. destruct (body x s) as [s1 [e|[]]]; [done|]. apply IH.
Qed.

Lemma for_each_snoc (l : list A) (x : A) (body : A → M S unit) s s' :
  for_each l body s = (s', inr tt) →
  for_each (l ++ [x]) body s = body x s'.
Proof.
  intros H. rewrite (for_each_app _ _ _ _ _ H). simpl.
  unfold bind, ret. by destruct (body x s') as [s1 [e|[]]].
Qed.
End Monad.

(** ** Throughput *)

Lemma Throughput_update_first (tp : Throughput.t) edge now :
  Throughput.vehicles_in_edge tp !! edge = None →
  Throughput.update edge now tp =
    ({| Throughput.vehicles_in_edge := <[edge := now]> (Throughput.vehicles_in_edge tp);
        Throughput.vehicles_left_count := <[edge := [0]]> (Throughput.vehicles_left_count tp);
        Throughput.edge_ids := Throughput.edge_ids tp |}, inr tt).
Proof.
  intros H. unfold Throughput.update, bind, get, modify, ret, put. simpl.
  rewrite H. simpl. rewrite lookup_insert_eq. simpl.
  unfold Throughput.set_vehicles_left_count. simpl. by rewrite insert_insert_eq.
Qed.

Lemma Throughput_update_later (tp : Throughput.t) edge now previous counts :
  Throughput.vehicles_in_edge tp !! edge = Some previous →
  Throughput.vehicles_left_count tp !! edge = Some counts →
  Throughput.update edge now tp =
    ({| Throughput.vehicles_in_edge := <[edge := now]> (Throughput.vehicles_in_edge tp);
        Throughput.vehicles_left_count :=
          <[edge := counts ++ [Z.of_nat (size (previous ∖ now))]]> (Throughput.vehicles_left_count tp);
        Throughput.edge_ids := Throughput.edge_ids tp |}, inr tt).
Proof.
  intros H1 H2. unfold Throughput.update, bind, get, modify, ret, put. simpl.
  rewrite H1. simpl. by rewrite H2.
Qed.

Lemma observations_snoc edge calls e now :
  observations edge (calls ++ [(e, now)]) =
    if decide (e = edge) then observations edge calls ++ [now] else observations edge calls.
Proof.
  unfold observations. rewrite filter_app, fmap_app.
  rewrite filter_cons, filter_nil. simpl.
  case_decide; simpl; [done | by rewrite app_nil_r].
Qed.

Lemma departed_from_snoc previous obs now :
  departed_from previous (obs ++ [now]) =
    departed_from previous obs ++ [departed (last (option_list previous ++ obs)) now].
Proof.
  revert previous. induction obs as [|o obs IH]; intros previous; simpl.
  - by destruct previous.
  - rewrite IH. do 3 f_equal. simpl.
    destruct previous as [p|]; simpl; by destruct obs.
Qed.

Lemma departed_counts_snoc obs now :
  departed_counts (obs ++ [now]) = departed_counts obs ++ [departed (last obs) now].
Proof. unfold departed_counts. by rewrite departed_from_snoc. Qed.

Lemma Throughput_update_tracks calls tp edge now :
  Throughput_tracks calls tp →
  ∃ tp', Throughput.update edge now tp = (tp', inr tt) ∧
         Throughput_tracks (calls ++ [(edge, now)]) tp' ∧
         Throughput.vehicles_left_count tp' !! edge =
           Some (default [] (Throughput.vehicles_left_count tp !! edge)
                 ++ [departed (last (observations edge calls)) now]).
Proof.
  intros Htr. destruct (Htr edge) as [Hin Hcnt].
  destruct (last (observations edge calls)) as [previous|] eqn:Hlast.
  - assert (Hne : observations edge calls ≠ []) by (intros E; by rewrite E in Hlast).
    rewrite decide_False in Hcnt by done.
    eexists. split; [by apply Throughput_update_later|]. split.
    + intros e. rewrite observations_snoc. simpl.
      destruct (decide (edge = e)) as [<-|Hd].
      * rewrite !lookup_insert_eq, last_snoc, departed_counts_snoc, Hlast.
        split; [done|]. rewrite decide_False; [done|]. by intros [_ [=]]%app_eq_nil.
      * rewrite !lookup_insert_ne by done. apply Htr.
    + simpl. by rewrite lookup_insert_eq, Hcnt.
  - assert (He : observations edge calls = []).
    { destruct (observations edge calls) using rev_ind; [done|]. by rewrite last_snoc in Hlast. }
    rewrite He in Hcnt. simpl in Hcnt.
    eexists. split; [by apply Throughput_update_first|]. split.
    + intros e. rewrite observations_snoc. simpl.
      destruct (decide (edge = e)) as [<-|Hd].
      * rewrite !lookup_insert_eq, He. done.
      * rewrite !lookup_insert_ne by done. apply Htr.
    + simpl. by rewrite lookup_insert_eq, Hcnt.
Qed.

Lemma Throughput_run_tracks edge_ids calls :
  ∃ tp, run_updates calls (Throughput.init edge_ids) = (tp, inr tt) ∧
        Throughput_tracks calls tp.
Proof.
  induction calls as [|[e now] calls IH] using rev_ind.
  - eexists. split; [done|]. intros e. simpl. by rewrite !lookup_empty.
  - destruct IH as (tp & Hrun & Htr).
    destruct (Throughput_update_tracks calls tp e now Htr) as (tp' & Hup & Htr' & _).
    exists tp'. split; [|done].
    unfold run_updates in *. by rewrite (for_each_snoc _ _ _ _ _ Hrun).
Qed.

(** C1. Whatever calls a Throughput accumulator has received since its
    construction, the count that [update(edge, now)] records for the edge
    is appended to the edge's sequence and is 0 when the edge was never
    observed before, and otherwise the number of vehicles of the set passed
    by the previous call for that edge that are absent from [now]; so the
    whole sequence of an edge is the departed-counts of its observations,
    and an edge observed with {A,B}, then {B,C}, then {} has [0; 1; 2]. *)
Theorem C1_throughput_departed_counts :
  (∀ edge_ids calls edge now,
     ∃ tp tp',
       run_updates calls (Throughput.init edge_ids) = (tp, inr tt) ∧
       Throughput.update edge now tp = (tp', inr tt) ∧
       Throughput.vehicles_left_count tp' !! edge =
         Some (default [] (Throughput.vehicles_left_count tp !! edge)
               ++ [departed (last (observations edge calls)) now]) ∧
       Throughput.vehicles_in_edge tp' !! edge = Some now) ∧
  (∀ edge_ids calls,
     ∃ tp,
       run_updates calls (Throughput.init edge_ids) = (tp, inr tt) ∧
       ∀ edge,
         Throughput.vehicles_left_count tp !! edge =
           if decide (observations edge calls = []) then None
           else Some (departed_counts (observations edge calls))) ∧
  (∀ edge_ids edge,
     ∃ tp,
       run_updates [(edge, {["A"; "B"]}); (edge, {["B"; "C"]}); (edge, ∅)]
         (Throughput.init edge_ids) = (tp, inr tt) ∧
       Throughput.vehicles_left_count tp !! edge = Some [0; 1; 2]).
Proof.
  split; [|split].
  - intros edge_ids calls edge now.
    destruct (Throughput_run_tracks edge_ids calls) as (tp & Hrun & Htr).
    destruct (Throughput_update_tracks calls tp edge now Htr) as (tp' & Hup & Htr' & Hcnt).
    exists tp, tp'. repeat split; try done.
    destruct (Htr' edge) as [Hin _]. rewrite Hin, observations_snoc.
    by rewrite decide_True, last_snoc.
  - intros edge_ids calls.
    destruct (Throughput_run_tracks edge_ids calls) as (tp & Hrun & Htr).
    exists tp. split; [done|]. intros edge. apply Htr.
  - intros edge_ids edge.
    destruct (Throughput_run_tracks edge_ids
                [(edge, {["A"; "B"]}); (edge, {["B"; "C"]}); (edge, ∅)])
      as (tp & Hrun & Htr).
    exists tp. split; [done|]. destruct (Htr edge) as [_ ->].
    unfold observations. rewrite !filter_cons, filter_nil. simpl.
    destruct (decide (edge = edge)); [|done]. simpl.
    by vm_compute.
Qed.

(** ** TimeDistance *)

Lemma TimeDistance_update_eq (td : TimeDistance.t) vehicle distance time :
  TimeDistance.update vehicle distance time td =
    match py_index (length (slots_of td vehicle)) (time - TimeDistance.start_time td) with
    | Some n =>
        (TimeDistance.set_data
           (λ _, <[vehicle := <[n := distance]> (slots_of td vehicle)]> (TimeDistance.data td)) td,
         inr tt)
    | None =>
        (TimeDistance.set_data
           (λ _, <[vehicle := slots_of td vehicle]> (TimeDistance.data td)) td,
         inl IndexError)
    end.
Proof.
  unfold TimeDistance.update, slots_of, bind, get, modify, ret, put, lift_exn, py_setitem.
  destruct td as [data re ts diff start]. simpl.
  destruct (data !! vehicle) as [slots|] eqn:Hv; simpl.
  - rewrite Hv.
    destruct (py_index _ _); unfold TimeDistance.set_data; simpl; [done|].
    by rewrite insert_id.
  - rewrite lookup_insert_eq.
    destruct (py_index _ _); unfold TimeDistance.set_data; simpl; [|done].
    by rewrite insert_insert_eq.
Qed.

Lemma TimeDistance_init_wf route_edges timespan :
  TimeDistance_wf (TimeDistance.init route_edges timespan).
Proof. repeat split. intros vehicle slots. simpl. by rewrite lookup_empty. Qed.

Lemma slots_of_length td vehicle :
  TimeDistance_wf td →
  length (slots_of td vehicle) = Z.to_nat (TimeDistance.time_diff td).
Proof.
  intros (_ & _ & Hlen). unfold slots_of.
  destruct (TimeDistance.data td !! vehicle) as [slots|] eqn:Hv; simpl.
  - by apply (Hlen vehicle).
  - unfold py_repeat. by rewrite length_replicate.
Qed.

Lemma TimeDistance_update_wf td vehicle distance time :
  TimeDistance_wf td →
  TimeDistance_wf (TimeDistance.update vehicle distance time td).1.
Proof.
  intros Hwf. pose proof (slots_of_length td vehicle Hwf) as Hlen.
  destruct Hwf as (Hdiff & Hstart & Hall).
  rewrite TimeDistance_update_eq.
  destruct (py_index _ _) as [n|]; simpl; (split; [done|split; [done|]]);
    intros v slots; simpl;
    (destruct (decide (vehicle = v)) as [<-|Hne];
     [rewrite lookup_insert_eq; intros [= <-]
     |rewrite lookup_insert_ne by done; apply Hall]).
  - by rewrite length_insert.
  - done.
Qed.

Lemma TimeDistance_reachable_wf td : TimeDistance_reachable td → TimeDistance_wf td.
Proof.
  induction 1; [apply TimeDistance_init_wf | by apply TimeDistance_update_wf].
Qed.

Lemma py_index_front (len : nat) (i : Z) :
  0 <= i < Z.of_nat len → py_index len i = Some (Z.to_nat i).
Proof. intros H. unfold py_index. by rewrite decide_True. Qed.

Lemma py_index_back (len : nat) (i : Z) :
  - Z.of_nat len <= i < 0 → py_index len i = Some (Z.to_nat (Z.of_nat len + i)).
Proof.
  intros H. unfold py_index. rewrite decide_False by lia. by rewrite decide_True.
Qed.

Lemma py_index_out (len : nat) (i : Z) :
  py_index len i = None ↔ i < - Z.of_nat len ∨ Z.of_nat len <= i.
Proof. unfold py_index. repeat case_decide; split; intros; try done; lia. Qed.

Lemma lookup_replicate_lt {A} (n i : nat) (x : A) :
  (i < n)%nat → replicate n x !! i = Some x.
Proof. intros H. by apply lookup_replicate_2. Qed.

(** C2. In an accumulator with window [start, stop), the first
    [update(vehicle, distance, s)] of a vehicle at an in-window step [s]
    leaves the vehicle with a slot array of length [stop - start] whose
    slot [s - start] holds the distance and whose other slots hold the
    sentinel; for [stop = start + 10] and [s = start + 5] that is five
    sentinels, the distance, and four sentinels. *)
Theorem C2_time_distance_first_observation
    (td : TimeDistance.t) (vehicle : string) (distance : number) (start stop s : Z) :
  TimeDistance_wf td →
  TimeDistance.timespan td = (start, stop) →
  start <= s < stop →
  TimeDistance.data td !! vehicle = None →
  ∃ td' slots,
    TimeDistance.update vehicle distance s td = (td', inr tt) ∧
    TimeDistance.data td' !! vehicle = Some slots ∧
    Z.of_nat (length slots) = stop - start ∧
    slots !! Z.to_nat (s - start) = Some distance ∧
    (∀ i, (i < length slots)%nat → i ≠ Z.to_nat (s - start) → slots !! i = Some NaN) ∧
    (stop = start + 10 → s = start + 5 →
     slots = [NaN; NaN; NaN; NaN; NaN; distance; NaN; NaN; NaN; NaN]).
Proof.
  intros Hwf Hspan Hs Hnew.
  pose proof (slots_of_length td vehicle Hwf) as Hlen.
  destruct Hwf as (Hdiff & Hstart & _).
  rewrite Hspan in Hdiff, Hstart. simpl in Hdiff, Hstart.
  rewrite TimeDistance_update_eq, Hstart.
  rewrite py_index_front by (rewrite Hlen, Hdiff; lia).
  assert (Hslots : slots_of td vehicle = replicate (Z.to_nat (stop - start)) NaN).
  { unfold slots_of, py_repeat. by rewrite Hnew, Hdiff. }
  rewrite Hslots.
  eexists _, _. split; [done|]. simpl. rewrite lookup_insert_eq.
  split; [done|]. rewrite length_insert, length_replicate.
  split; [lia|]. split; [|split].
  - apply list_lookup_insert_eq. rewrite length_replicate. lia.
  - intros i Hi Hne. rewrite list_lookup_insert_ne by done.
    by apply lookup_replicate_lt.
  - intros -> ->.
    replace (start + 10 - start) with 10 by lia.
    by replace (start + 5 - start) with 5 by lia.
Qed.

Lemma C2_time_distance_first_observation_witness :
  ∃ td' slots,
    TimeDistance.update "veh0" (PFloat 12.5) 105
      (TimeDistance.init ("in", "out") (100, 110)) = (td', inr tt) ∧
    TimeDistance.data td' !! "veh0" = Some slots ∧
    Z.of_nat (length slots) = 110 - 100 ∧
    slots !! Z.to_nat (105 - 100) = Some (PFloat 12.5) ∧
    (∀ i, (i < length slots)%nat → i ≠ Z.to_nat (105 - 100) → slots !! i = Some NaN) ∧
    (110 = 100 + 10 → 105 = 100 + 5 →
     slots = [NaN; NaN; NaN; NaN; NaN; PFloat 12.5; NaN; NaN; NaN; NaN]).
Proof.
  apply (C2_time_distance_first_observation
           (TimeDistance.init ("in", "out") (100, 110)) "veh0" (PFloat 12.5) 100 110 105).
  - apply TimeDistance_init_wf.
  - reflexivity.
  - lia.
  - reflexivity.
Defined.

(** C9. Updating the same vehicle twice at the same in-window step keeps
    the length of its slot array, leaves the second distance in slot
    [s - start] and every other slot (and every other vehicle) as the first
    call left it: the accumulator is the one a single call with the second
    distance gives. *)
Theorem C9_time_distance_overwrite
    (td : TimeDistance.t) (vehicle : string) (d1 d2 : number) (start stop s : Z) :
  TimeDistance_wf td →
  TimeDistance.timespan td = (start, stop) →
  start <= s < stop →
  ∃ td1 td2 slots1 slots2,
    TimeDistance.update vehicle d1 s td = (td1, inr tt) ∧
    TimeDistance.update vehicle d2 s td1 = (td2, inr tt) ∧
    TimeDistance.data td1 !! vehicle = Some slots1 ∧
    TimeDistance.data td2 !! vehicle = Some slots2 ∧
    length slots2 = length slots1 ∧
    slots2 !! Z.to_nat (s - start) = Some d2 ∧
    (∀ i, i ≠ Z.to_nat (s - start) → slots2 !! i = slots1 !! i) ∧
    (∀ other, other ≠ vehicle →
       TimeDistance.data td2 !! other = TimeDistance.data td1 !! other) ∧
    TimeDistance.update vehicle d2 s td = (td2, inr tt).
Proof.
  intros Hwf Hspan Hs.
  pose proof (slots_of_length td vehicle Hwf) as Hlen.
  destruct Hwf as (Hdiff & Hstart & _).
  rewrite Hspan in Hdiff, Hstart. simpl in Hdiff, Hstart.
  assert (Hidx : py_index (length (slots_of td vehicle)) (s - start)
                 = Some (Z.to_nat (s - start))).
  { apply py_index_front. rewrite Hlen, Hdiff. lia. }
  assert (Hlt : (Z.to_nat (s - start) < length (slots_of td vehicle))%nat).
  { rewrite Hlen, Hdiff. lia. }
  set (n := Z.to_nat (s - start)) in *.
  set (slots := slots_of td vehicle) in *.
  set (td1 := TimeDistance.set_data
                (λ _, <[vehicle := <[n := d1]> slots]> (TimeDistance.data td)) td).
  assert (H1 : TimeDistance.update vehicle d1 s td = (td1, inr tt)).
  { rewrite TimeDistance_update_eq, Hstart. fold slots. by rewrite Hidx. }
  assert (Hslots1 : slots_of td1 vehicle = <[n := d1]> slots).
  { unfold slots_of, td1. simpl. by rewrite lookup_insert_eq. }
  assert (H2 : TimeDistance.update vehicle d2 s td1 =
               (TimeDistance.set_data
                  (λ _, <[vehicle := <[n := d2]> slots]> (TimeDistance.data td)) td,
                inr tt)).
  { rewrite TimeDistance_update_eq, Hslots1. simpl. rewrite Hstart.
    rewrite length_insert, Hidx. fold n.
    unfold TimeDistance.set_data, td1. simpl.
    by rewrite insert_insert_eq, list_insert_insert_eq. }
  eexists td1, _, _, _. split; [exact H1|]. split; [exact H2|].
  simpl. rewrite !lookup_insert_eq.
  split; [done|]. split; [done|]. rewrite !length_insert.
  split; [done|]. split; [by apply list_lookup_insert_eq|]. split; [|split].
  - intros i Hi. by rewrite !list_lookup_insert_ne.
  - intros other Hne. by rewrite !lookup_insert_ne.
  - rewrite TimeDistance_update_eq, Hstart. fold slots. by rewrite Hidx.
Qed.

Lemma C9_time_distance_overwrite_witness :
  ∃ td1 td2 slots1 slots2,
    TimeDistance.update "veh0" (PFloat 12.5) 105
      (TimeDistance.init ("in", "out") (100, 110)) = (td1, inr tt) ∧
    TimeDistance.update "veh0" (PFloat 20) 105 td1 = (td2, inr tt) ∧
    TimeDistance.data td1 !! "veh0" = Some slots1 ∧
    TimeDistance.data td2 !! "veh0" = Some slots2 ∧
    length slots2 = length slots1 ∧
    slots2 !! Z.to_nat (105 - 100) = Some (PFloat 20) ∧
    (∀ i, i ≠ Z.to_nat (105 - 100) → slots2 !! i = slots1 !! i) ∧
    (∀ other, other ≠ "veh0" →
       TimeDistance.data td2 !! other = TimeDistance.data td1 !! other) ∧
    TimeDistance.update "veh0" (PFloat 20) 105
      (TimeDistance.init ("in", "out") (100, 110)) = (td2, inr tt).
Proof.
  apply (C9_time_distance_overwrite
           (TimeDistance.init ("in", "out") (100, 110)) "veh0"
           (PFloat 12.5) (PFloat 20) 100 110 105).
  - apply TimeDistance_init_wf.
  - reflexivity.
  - lia.
Defined.

(** C10. With window [start, stop) of length [L = stop - start], a call
    [update(vehicle, distance, s)] at a step with [start - L <= s < start]
    does not raise: it writes the distance into slot [L + (s - start)],
    counted from the end of the vehicle's slot array, and leaves the other
    slots alone. The call raises exactly when [s < start - L] or
    [s >= stop], and then it raises IndexError. *)
Theorem C10_time_distance_out_of_window
    (td : TimeDistance.t) (vehicle : string) (distance : number) (start stop s : Z) :
  TimeDistance_wf td →
  TimeDistance.timespan td = (start, stop) →
  (start - (stop - start) <= s < start →
   ∃ td' slots,
     TimeDistance.update vehicle distance s td = (td', inr tt) ∧
     TimeDistance.data td' !! vehicle = Some slots ∧
     Z.of_nat (length slots) = stop - start ∧
     slots !! Z.to_nat ((stop - start) + (s - start)) = Some distance ∧
     (∀ i, i ≠ Z.to_nat ((stop - start) + (s - start)) →
        slots !! i = slots_of td vehicle !! i)) ∧
  (raised IndexError (TimeDistance.update vehicle distance s td)
   ↔ s < start - (stop - start) ∨ s >= stop) ∧
  (∀ e, raised e (TimeDistance.update vehicle distance s td) → e = IndexError).
Proof.
  intros Hwf Hspan.
  pose proof (slots_of_length td vehicle Hwf) as Hlen.
  destruct Hwf as (Hdiff & Hstart & _).
  rewrite Hspan in Hdiff, Hstart. simpl in Hdiff, Hstart.
  rewrite Hdiff in Hlen.
  rewrite TimeDistance_update_eq, Hstart.
  split; [|split].
  - intros Hs.
    assert (HL : Z.of_nat (length (slots_of td vehicle)) = stop - start) by lia.
    rewrite py_index_back by lia. rewrite HL.
    eexists _, _. split; [done|]. simpl. rewrite lookup_insert_eq.
    split; [done|]. rewrite length_insert. split; [done|]. split.
    + apply list_lookup_insert_eq. lia.
    + intros i Hi. by rewrite list_lookup_insert_ne.
  - unfold raised.
    destruct (py_index _ _) as [n|] eqn:Hidx; simpl.
    + split; [done|]. intros Hs.
      assert (Hout : py_index (length (slots_of td vehicle)) (s - start) = None).
      { apply py_index_out. lia. }
      congruence.
    + split; [|done]. intros _. apply py_index_out in Hidx. lia.
  - unfold raised. intros e. destruct (py_index _ _); simpl; congruence.
Qed.

Lemma C10_time_distance_out_of_window_witness :
  (100 - (110 - 100) <= 97 < 100 →
   ∃ td' slots,
     TimeDistance.update "veh0" (PFloat 12.5) 97
       (TimeDistance.init ("in", "out") (100, 110)) = (td', inr tt) ∧
     TimeDistance.data td' !! "veh0" = Some slots ∧
     Z.of_nat (length slots) = 110 - 100 ∧
     slots !! Z.to_nat ((110 - 100) + (97 - 100)) = Some (PFloat 12.5) ∧
     (∀ i, i ≠ Z.to_nat ((110 - 100) + (97 - 100)) →
        slots !! i = slots_of (TimeDistance.init ("in", "out") (100, 110)) "veh0" !! i)) ∧
  (raised IndexError
     (TimeDistance.update "veh0" (PFloat 12.5) 97
        (TimeDistance.init ("in", "out") (100, 110)))
   ↔ 97 < 100 - (110 - 100) ∨ 97 >= 110) ∧
  (∀ e, raised e
          (TimeDistance.update "veh0" (PFloat 12.5) 97
             (TimeDistance.init ("in", "out") (100, 110))) → e = IndexError).
Proof.
  apply (C10_time_distance_out_of_window
           (TimeDistance.init ("in", "out") (100, 110)) "veh0" (PFloat 12.5) 100 110 97).
  - apply TimeDistance_init_wf.
  - reflexivity.
Defined.

(** The step of the witness above is inside [start - L, start): the call
    returns with the distance in slot 7 of 10. *)
Example time_distance_wraps_around :
  let r := TimeDistance.update "veh0" (PFloat 12.5) 97
             (TimeDistance.init ("in", "out") (100, 110)) in
  r.2 = inr tt ∧
  TimeDistance.data r.1 !! "veh0"
    = Some [NaN; NaN; NaN; NaN; NaN; NaN; NaN; PFloat 12.5; NaN; NaN].
Proof. by vm_compute. Qed.

(** ** FundamentalDiagram *)

Lemma FundamentalDiagram_update_eq (fd : FundamentalDiagram.t) mean_speed vehicle_ids
    speed flow vehicle_count :
  FundamentalDiagram.data fd !! "speed" = Some speed →
  FundamentalDiagram.data fd !! "flow" = Some flow →
  FundamentalDiagram.data fd !! "vehicle_count" = Some vehicle_count →
  FundamentalDiagram.update mean_speed vehicle_ids fd =
    ({| FundamentalDiagram.edge_id := FundamentalDiagram.edge_id fd;
        FundamentalDiagram.data :=
          <["flow" := flow ++
              [PInt (Z.of_nat (size (FundamentalDiagram.vehicles_in_edge fd ∖ vehicle_ids)))]]>
            (<["vehicle_count" := vehicle_count ++ [PInt (Z.of_nat (size vehicle_ids))]]>
               (<["speed" := speed ++ [py_mul_float mean_speed kmph_factor]]>
                  (FundamentalDiagram.data fd)));
        FundamentalDiagram.vehicles_in_edge := vehicle_ids;
        FundamentalDiagram.edge_length := FundamentalDiagram.edge_length fd |}, inr tt).
Proof.
  intros Hs Hf Hv.
  unfold FundamentalDiagram.update, FundamentalDiagram.data_append,
    bind, get, modify, ret, put.
  simpl. rewrite Hs. simpl.
  rewrite lookup_insert_ne by done. rewrite Hv. simpl.
  rewrite lookup_insert_ne by done. rewrite lookup_insert_ne by done.
  by rewrite Hf.
Qed.

Lemma FundamentalDiagram_init_columns edge_id :
  columns_of_length 0 (FundamentalDiagram.init edge_id).
Proof. by exists [], [], []. Qed.

Lemma FundamentalDiagram_update_columns n fd mean_speed vehicle_ids :
  columns_of_length n fd →
  ∃ fd', FundamentalDiagram.update mean_speed vehicle_ids fd = (fd', inr tt) ∧
         columns_of_length (S n) fd'.
Proof.
  intros (speed & flow & vehicle_count & Hs & Hf & Hv & Ls & Lf & Lv).
  eexists. split; [by eapply FundamentalDiagram_update_eq|].
  eexists _, _, _. simpl.
  rewrite lookup_insert_ne by done. rewrite lookup_insert_ne by done.
  rewrite lookup_insert_eq. split; [done|].
  rewrite lookup_insert_eq. split; [done|].
  rewrite lookup_insert_ne by done. rewrite lookup_insert_eq. split; [done|].
  rewrite !length_app. simpl. lia.
Qed.

(** C3. From its construction on and after any finite sequence of
    [update] calls, every call returns, and the sequences stored under
    'speed', 'flow' and 'vehicle_count' all have as many entries as there
    were calls; so they have equal lengths after every call. *)
Theorem C3_fundamental_diagram_equal_lengths :
  ∀ edge_id (calls : list (number * gset string)),
    ∃ fd speed flow vehicle_count,
      run_diagram_updates calls (FundamentalDiagram.init edge_id) = (fd, inr tt) ∧
      FundamentalDiagram.data fd !! "speed" = Some speed ∧
      FundamentalDiagram.data fd !! "flow" = Some flow ∧
      FundamentalDiagram.data fd !! "vehicle_count" = Some vehicle_count ∧
      length speed = length calls ∧
      length flow = length calls ∧
      length vehicle_count = length calls.
Proof.
  intros edge_id calls.
  cut (∃ fd, run_diagram_updates calls (FundamentalDiagram.init edge_id) = (fd, inr tt)
             ∧ columns_of_length (length calls) fd).
  { intros (fd & Hrun & speed & flow & vc & H). by exists fd, speed, flow, vc. }
  induction calls as [|[mean_speed vehicle_ids] calls IH] using rev_ind.
  - eexists. split; [done|]. apply FundamentalDiagram_init_columns.
  - destruct IH as (fd & Hrun & Hcols).
    destruct (FundamentalDiagram_update_columns _ fd mean_speed vehicle_ids Hcols)
      as (fd' & Hup & Hcols').
    exists fd'. unfold run_diagram_updates in *.
    rewrite (for_each_snoc _ _ _ _ _ Hrun). split; [done|].
    rewrite length_app. simpl. by rewrite Nat.add_1_r.
Qed.

(** ** Frame and exception reasoning *)

Section Frame.
Context {S X : Type} (proj : S → X).

Lemma keeps_ret {A} (a : A) : keeps proj (ret a).
Proof. done. Qed.

Lemma keeps_raise {A} e : keeps proj (raise (A:=A) e).
Proof. done. Qed.

Lemma keeps_lift_exn {A} (r : exn + A) : keeps proj (lift_exn r).
Proof. done. Qed.

Lemma keeps_get : keeps proj get.
Proof. done. Qed.

Lemma keeps_bind {A B} (m : M S A) (k : A → M S B) :
  keeps proj m → (∀ a, keeps proj (k a)) → keeps proj (bind m k).
Proof.
  intros Hm Hk s. unfold bind. specialize (Hm s).
  destruct (m s) as [s' [e|a]]; simpl in *; [done|].
  by rewrite Hk.
Qed.

Lemma keeps_for_each {A} (l : list A) (body : A → M S unit) :
  (∀ x, keeps proj (body x)) → keeps proj (for_each l body).
Proof.
  intros Hbody. induction l as [|x l IH]; simpl; [apply keeps_ret|].
  by apply keeps_bind.
Qed.

Lemma keeps_local {L} (init : L) (m : M L unit) : keeps proj (local init m).
Proof. intros s. unfold local. by destruct (m init) as [l [e|[]]]. Qed.

Lemma keeps_on_object {O A} (heap : S → gmap ref O) set_heap r (m : M O A) :
  (∀ h s, proj (set_heap h s) = proj s) →
  keeps proj (on_object heap set_heap r m).
Proof.
  intros Hset s. unfold on_object.
  destruct (heap s !! r) as [o|]; [|done].
  destruct (m o) as [o' res]. simpl. apply Hset.
Qed.
End Frame.

Section Never.
Context {S : Type} (e : exn).

Lemma never_ret {A} (a : A) : never (S:=S) e (ret a).
Proof. done. Qed.

Lemma never_raise {A} e' : e' ≠ e → never (S:=S) e (raise (A:=A) e').
Proof. intros Hne s. simpl. congruence. Qed.

Lemma never_lift_exn {A} (r : exn + A) : r ≠ inl e → never (S:=S) e (lift_exn r).
Proof. intros Hne s. done. Qed.

Lemma never_get : never (S:=S) e get.
Proof. done. Qed.

Lemma never_put s : never (S:=S) e (put s).
Proof. done. Qed.

Lemma never_modify f : never (S:=S) e (modify f).
Proof. done. Qed.

Lemma never_bind {A B} (m : M S A) (k : A → M S B) :
  never e m → (∀ a, never e (k a)) → never e (bind m k).
Proof.
  intros Hm Hk s. unfold bind. specialize (Hm s).
  destruct (m s) as [s' [e'|a]]; simpl in *; [intros [= ->]; by apply Hm|]. apply Hk.
Qed.

Lemma never_for_each {A} (l : list A) (body : A → M S unit) :
  (∀ x, never e (body x)) → never e (for_each l body).
Proof.
  intros Hbody. induction l as [|x l IH]; simpl; [apply never_ret|].
  by apply never_bind.
Qed.

Lemma never_local {L} (init : L) (m : M L unit) :
  never e m → never (S:=S) e (local init m).
Proof.
  intros Hm s. unfold local. specialize (Hm init).
  destruct (m init) as [l [e'|[]]]; simpl in *; [|done].
  intros [= ->]. by apply Hm.
Qed.

Lemma never_on_object {O A} (heap : S → gmap ref O) set_heap r (m : M O A) :
  e ≠ DanglingRef → never e m → never e (on_object heap set_heap r m).
Proof.
  intros Hne Hm s. unfold on_object.
  destruct (heap s !! r) as [o|]; simpl; [|congruence].
  specialize (Hm o). by destruct (m o) as [o' res].
Qed.
End Never.

Lemma py_getitem_raises {A} (l : list A) i e :
  py_getitem l i = inl e → e = IndexError.
Proof.
  unfold py_getitem. destruct (py_index _ _); [destruct (l !! _)|]; congruence.
Qed.

Lemma py_truediv_raises x n : n ≠ 0 → ∀ e, py_truediv x n ≠ inl e.
Proof. intros Hn e. unfold py_truediv. by rewrite decide_False. Qed.

Lemma Throughput_update_never_divides edge vehicle_ids :
  never ZeroDivisionError (Throughput.update edge vehicle_ids).
Proof.
  unfold Throughput.update.
  apply never_bind; [apply never_get|]; intros self.
  apply never_bind.
  { destruct (_ !! _); [apply never_ret|].
    apply never_bind; [apply never_modify | intros; apply never_ret]. }
  intros c. apply never_bind; [apply never_modify|]. intros _.
  apply never_bind; [apply never_get|]. intros self'.
  destruct (_ !! _); [apply never_put | by apply never_raise].
Qed.

Lemma FundamentalDiagram_update_never_divides mean_speed vehicle_ids :
  never ZeroDivisionError (FundamentalDiagram.update mean_speed vehicle_ids).
Proof.
  assert (Happ : ∀ key x, never ZeroDivisionError (FundamentalDiagram.data_append key x)).
  { intros key x. unfold FundamentalDiagram.data_append.
    apply never_bind; [apply never_get|]. intros self.
    destruct (_ !! _); [apply never_put | by apply never_raise]. }
  unfold FundamentalDiagram.update.
  apply never_bind; [apply Happ|]. intros _.
  apply never_bind; [apply Happ|]. intros _.
  apply never_bind; [apply never_get|]. intros self.
  apply never_bind; [apply never_modify|]. intros _.
  apply Happ.
Qed.

Lemma TimeDistance_update_never_divides vehicle distance time :
  never ZeroDivisionError (TimeDistance.update vehicle distance time).
Proof.
  intros td. rewrite TimeDistance_update_eq. by destruct (py_index _ _).
Qed.

(** ** DataCollector.step *)

Lemma average_wait_time_eq traci edge (m : gmap string number) :
  DataCollector.average_wait_time traci edge m = (<[edge := average_of traci edge]> m, inr tt).
Proof.
  unfold DataCollector.average_wait_time, average_of, bind, modify, lift_exn, ret, py_truediv.
  repeat case_decide; done.
Qed.

Lemma snapshot_loop traci edges (m : gmap string number) :
  for_each edges (DataCollector.average_wait_time traci) m = (snapshot_of traci edges m, inr tt).
Proof.
  revert m. induction edges as [|edge edges IH]; intros m; simpl; [done|].
  unfold bind. rewrite average_wait_time_eq. apply IH.
Qed.

Lemma snapshot_of_keeps traci edges (m : gmap string number) edge :
  m !! edge = Some (average_of traci edge) →
  snapshot_of traci edges m !! edge = Some (average_of traci edge).
Proof.
  revert m. induction edges as [|e edges IH]; intros m Hm; simpl; [done|].
  apply IH. destruct (decide (e = edge)) as [->|Hne].
  - by rewrite lookup_insert_eq.
  - by rewrite lookup_insert_ne.
Qed.

Lemma snapshot_of_lookup traci edges (m : gmap string number) edge :
  edge ∈ edges →
  snapshot_of traci edges m !! edge = Some (average_of traci edge).
Proof.
  revert m. induction edges as [|e edges IH]; intros m Hin; [by apply elem_of_nil in Hin|].
  simpl. destruct (decide (e = edge)) as [->|Hne].
  - apply snapshot_of_keeps. by rewrite lookup_insert_eq.
  - apply IH. apply elem_of_cons in Hin as [->|Hin]; done.
Qed.

Lemma step_waiting_time_eq traci (dc : DataCollector.t) (w : World) wt acc :
  DataCollector.waiting_time dc = Some wt →
  waiting_times w !! wt = Some acc →
  DataCollector.step_waiting_time traci dc w =
    (set_waiting_times
       (<[wt := {| WaitingTime.waiting_times :=
                     WaitingTime.waiting_times acc
                     ++ [snapshot_of traci (DataCollector.edges dc) ∅] |}]>
          (waiting_times w)) w,
     inr tt).
Proof.
  intros Hwt Hacc. unfold DataCollector.step_waiting_time. rewrite Hwt.
  unfold bind, local, on_object. rewrite snapshot_loop. by rewrite Hacc.
Qed.

Lemma step_waiting_time_never_divides traci dc :
  never ZeroDivisionError (DataCollector.step_waiting_time traci dc).
Proof.
  unfold DataCollector.step_waiting_time.
  destruct (DataCollector.waiting_time dc); [|apply never_ret].
  apply never_bind.
  - apply never_local. intros m. by rewrite snapshot_loop.
  - intros snapshot. by apply never_on_object.
Qed.

Lemma step_throughput_keeps traci dc :
  keeps waiting_times (DataCollector.step_throughput traci dc).
Proof.
  unfold DataCollector.step_throughput.
  destruct (DataCollector.throughput dc); [|apply keeps_ret].
  apply keeps_bind; [by apply keeps_on_object|]. intros tp.
  apply keeps_for_each. intros edge. by apply keeps_on_object.
Qed.

Lemma step_throughput_never_divides traci dc :
  never ZeroDivisionError (DataCollector.step_throughput traci dc).
Proof.
  unfold DataCollector.step_throughput.
  destruct (DataCollector.throughput dc); [|apply never_ret].
  apply never_bind; [by apply never_on_object|]. intros tp.
  apply never_for_each. intros edge.
  apply never_on_object; [done|]. apply Throughput_update_never_divides.
Qed.

Lemma step_fundamental_diagram_keeps traci dc :
  keeps waiting_times (DataCollector.step_fundamental_diagram traci dc).
Proof.
  unfold DataCollector.step_fundamental_diagram.
  destruct (DataCollector.fundamental_diagram dc); [|apply keeps_ret].
  apply keeps_bind; [by apply keeps_on_object|]. intros fd. simpl.
  apply keeps_bind; [|intros; by apply keeps_on_object].
  case_decide; [apply keeps_lift_exn | apply keeps_ret].
Qed.

Lemma step_fundamental_diagram_never_divides traci dc :
  never ZeroDivisionError (DataCollector.step_fundamental_diagram traci dc).
Proof.
  unfold DataCollector.step_fundamental_diagram.
  destruct (DataCollector.fundamental_diagram dc); [|apply never_ret].
  apply never_bind; [by apply never_on_object|]. intros fd. simpl.
  apply never_bind.
  - case_decide; [|apply never_ret].
    apply never_lift_exn. by apply py_truediv_raises.
  - intros mean. apply never_on_object; [done|].
    apply FundamentalDiagram_update_never_divides.
Qed.

Lemma step_time_distance_diagram_keeps traci dc :
  keeps waiting_times (DataCollector.step_time_distance_diagram traci dc).
Proof.
  unfold DataCollector.step_time_distance_diagram.
  destruct (DataCollector.time_distance_diagram dc); [|apply keeps_ret].
  apply keeps_bind; [by apply keeps_on_object|]. intros td.
  case_decide; [|apply keeps_ret]. simpl.
  apply keeps_for_each. intros vehicle.
  apply keeps_bind; [apply keeps_lift_exn|]. intros origin.
  apply keeps_bind; [by apply keeps_on_object|]. intros td'.
  case_decide; [|apply keeps_ret].
  apply keeps_bind; [apply keeps_lift_exn|]. intros destination.
  case_decide; [|apply keeps_ret]. by apply keeps_on_object.
Qed.

Lemma step_time_distance_diagram_never_divides traci dc :
  never ZeroDivisionError (DataCollector.step_time_distance_diagram traci dc).
Proof.
  unfold DataCollector.step_time_distance_diagram.
  destruct (DataCollector.time_distance_diagram dc); [|apply never_ret].
  apply never_bind; [by apply never_on_object|]. intros td.
  case_decide; [|apply never_ret]. simpl.
  apply never_for_each. intros vehicle.
  apply never_bind.
  { apply never_lift_exn. intros Hraise%py_getitem_raises. done. }
  intros origin.
  apply never_bind; [by apply never_on_object|]. intros td'.
  case_decide; [|apply never_ret].
  apply never_bind.
  { apply never_lift_exn. intros Hraise%py_getitem_raises. done. }
  intros destination. case_decide; [|apply never_ret].
  apply never_on_object; [done|]. apply TimeDistance_update_never_divides.
Qed.

(** C4. When a step is processed with a WaitingTime accumulator attached,
    one snapshot is appended to the accumulator, and a tracked edge with no
    vehicle at that step has the int 0 in it; the step never raises
    ZeroDivisionError, whatever the other attached accumulators do. *)
Theorem C4_waiting_time_zero_vehicles
    (traci : Traci) (n : Z) (st : DataCollector.state)
    (wt : ref) (acc : WaitingTime.t) (edge : string) :
  DataCollector.waiting_time (DataCollector.self st) = Some wt →
  waiting_times (DataCollector.world st) !! wt = Some acc →
  edge ∈ DataCollector.edges (DataCollector.self st) →
  edge_getLastStepVehicleNumber traci edge = 0 →
  ∃ snapshot,
    waiting_times (DataCollector.world (DataCollector.step traci n st).1) !! wt =
      Some {| WaitingTime.waiting_times := WaitingTime.waiting_times acc ++ [snapshot] |} ∧
    snapshot !! edge = Some (PInt 0) ∧
    ¬ raised ZeroDivisionError (DataCollector.step traci n st).
Proof.
  intros Hwt Hacc Hedge Hzero.
  exists (snapshot_of traci (DataCollector.edges (DataCollector.self st)) ∅).
  assert (Hsnap : snapshot_of traci (DataCollector.edges (DataCollector.self st)) ∅ !! edge
                  = Some (PInt 0)).
  { rewrite snapshot_of_lookup by done. unfold average_of. by rewrite decide_True. }
  destruct st as [dc w]. simpl in *.
  unfold raised, DataCollector.step, bind, DataCollector.get_self, DataCollector.in_world.
  simpl. rewrite (step_waiting_time_eq traci dc w wt acc Hwt Hacc).
  set (w1 := set_waiting_times _ w).
  assert (H1 : waiting_times w1 !! wt =
               Some {| WaitingTime.waiting_times := WaitingTime.waiting_times acc
                         ++ [snapshot_of traci (DataCollector.edges dc) ∅] |}).
  { unfold w1. simpl. by rewrite lookup_insert_eq. }
  clearbody w1. simpl.
  pose proof (step_throughput_keeps traci dc w1) as K2.
  pose proof (step_throughput_never_divides traci dc w1) as N2.
  destruct (DataCollector.step_throughput traci dc w1) as [w2 [e2|[]]]; simpl in *.
  { rewrite K2. repeat split; try done. intros [= ->]. by apply N2. }
  pose proof (step_fundamental_diagram_keeps traci dc w2) as K3.
  pose proof (step_fundamental_diagram_never_divides traci dc w2) as N3.
  destruct (DataCollector.step_fundamental_diagram traci dc w2) as [w3 [e3|[]]]; simpl in *.
  { rewrite K3, K2. repeat split; try done. intros [= ->]. by apply N3. }
  pose proof (step_time_distance_diagram_keeps traci dc w3) as K4.
  pose proof (step_time_distance_diagram_never_divides traci dc w3) as N4.
  destruct (DataCollector.step_time_distance_diagram traci dc w3) as [w4 [e4|[]]]; simpl in *.
  { rewrite K4, K3, K2. repeat split; try done. intros [= ->]. by apply N4. }
  rewrite K4, K3, K2. by repeat split.
Qed.

Lemma C4_waiting_time_zero_vehicles_witness :
  ∃ snapshot,
    waiting_times
      (DataCollector.world (DataCollector.step sample_traci 0 sample_state).1) !! 0%nat =
      Some {| WaitingTime.waiting_times :=
                WaitingTime.waiting_times WaitingTime.init ++ [snapshot] |} ∧
    snapshot !! "E1" = Some (PInt 0) ∧
    ¬ raised ZeroDivisionError (DataCollector.step sample_traci 0 sample_state).
Proof.
  apply (C4_waiting_time_zero_vehicles sample_traci 0 sample_state 0%nat
           WaitingTime.init "E1").
  - reflexivity.
  - reflexivity.
  - unfold sample_state. simpl. apply list_elem_of_further, list_elem_of_here.
  - reflexivity.
Defined.

(** ** DataCollector.__init__: the tracked edges *)

Lemma py_getitem_last {A} (l : list A) (x : A) : py_getitem (l ++ [x]) (-1) = inr x.
Proof.
  unfold py_getitem. rewrite py_index_back by (rewrite length_app; simpl; lia).
  rewrite length_app. simpl.
  replace (Z.to_nat (Z.of_nat (length l + 1) + -1)) with (length l) by lia.
  by rewrite list_lookup_middle.
Qed.

Lemma trim_nil : DataCollector.trim [] = inl IndexError.
Proof. reflexivity. Qed.

Lemma trim_snoc (edges : list string) (final : string) :
  DataCollector.trim (edges ++ [final]) =
    if DataCollector.is_boundary final then DataCollector.trim edges
    else inr (edges ++ [final]).
Proof.
  rewrite DataCollector.trim_equation_1.
  destruct (inspect (py_getitem (edges ++ [final]) (-1))) as [r Hr].
  pose proof Hr as Hlast. rewrite py_getitem_last in Hlast.
  destruct r as [e|x]; [done|]. injection Hlast as ->.
  simpl. unfold py_pop. by rewrite removelast_last.
Qed.

Lemma trim_spec (edges : list string) :
  DataCollector.trim edges =
    match without_trailing_boundary edges with
    | [] => inl IndexError
    | tracked => inr tracked
    end.
Proof.
  unfold without_trailing_boundary.
  induction edges as [|final edges IH] using rev_ind; [done|].
  rewrite trim_snoc, rev_unit. simpl.
  destruct (DataCollector.is_boundary final); [done|].
  simpl. rewrite rev_involutive.
  by destruct edges.
Qed.

(** When some edge is left after trimming, [__init__] returns a collector
    that is registered, has no accumulator attached, and tracks the edge
    list without its trailing boundary edges. *)
Lemma init_tracked_edges (traci : Traci) (w : World) :
  without_trailing_boundary (edge_getIDList traci) ≠ [] →
  ∃ w',
    DataCollector.init traci w =
      (w', inr {| DataCollector.id := Some (next_listener w);
                  DataCollector.edges := without_trailing_boundary (edge_getIDList traci);
                  DataCollector.waiting_time := None;
                  DataCollector.throughput := None;
                  DataCollector.fundamental_diagram := None;
                  DataCollector.time_distance_diagram := None;
                  DataCollector.step_count := 0 |}).
Proof.
  intros Hne. unfold DataCollector.init, bind, addStepListener, lift_exn, ret.
  rewrite trim_spec.
  destruct (without_trailing_boundary (edge_getIDList traci)); [done|].
  by eexists.
Qed.

(** On the sample network the collector tracks "E0" and "E1". *)
Example init_sample_traci :
  (DataCollector.init sample_traci empty_world).2 =
    inr {| DataCollector.id := Some 0;
           DataCollector.edges := ["E0"; "E1"];
           DataCollector.waiting_time := None;
           DataCollector.throughput := None;
           DataCollector.fundamental_diagram := None;
           DataCollector.time_distance_diagram := None;
           DataCollector.step_count := 0 |}.
Proof. by vm_compute. Qed.

(** However many boundary edges trail, they all go. *)
Lemma without_trailing_boundary_app (edges boundary : list string) :
  Forall (λ edge, DataCollector.is_boundary edge = true) boundary →
  without_trailing_boundary (edges ++ boundary) = without_trailing_boundary edges.
Proof.
  unfold without_trailing_boundary.
  induction boundary as [|b boundary IH] using rev_ind; intros Hall.
  - by rewrite app_nil_r.
  - apply Forall_app in Hall as [Hall Hb]. apply Forall_inv in Hb. simpl in Hb.
    rewrite app_assoc, rev_unit. simpl. rewrite Hb. by apply IH.
Qed.

(** C5. On the edge list ["E0-source"; "E0-sink"] the list without its
    trailing boundary edges is empty, but [__init__] does not return a
    collector tracking it: the loop pops both edges and then reads
    [edges[-1]] of the empty list, which raises IndexError (after the
    listener was registered). *)
Theorem C5_init_raises_on_boundary_only_edges :
  without_trailing_boundary (edge_getIDList boundary_only_traci) = [] ∧
  DataCollector.trim (edge_getIDList boundary_only_traci) = inl IndexError ∧
  (DataCollector.init boundary_only_traci empty_world).2 = inl IndexError ∧
  traci_calls (DataCollector.init boundary_only_traci empty_world).1 = [AddStepListener 0].
Proof. repeat split; by vm_compute. Qed.

(** ** Attaching and detaching *)

Lemma remove_eq (k : kind) (accumulator : ref) (st : DataCollector.state) :
  remove k accumulator st =
    if decide (slot k (DataCollector.self st) = Some accumulator)
    then ({| DataCollector.self := set_slot k None (DataCollector.self st);
             DataCollector.world := DataCollector.world st |}, inr true)
    else (st, inr false).
Proof.
  destruct k; simpl;
    unfold DataCollector.remove_waiting_time, DataCollector.remove_throughput,
      DataCollector.remove_fundamental_diagram, DataCollector.remove_time_distance_diagram,
      bind, DataCollector.get_self, DataCollector.set_self, modify, ret;
    simpl; by case_decide.
Qed.

(** C6. With an accumulator stored in the slot of some kind, the
    [remove_*] operation of that kind called with any other accumulator
    returns False and changes nothing; called with the stored accumulator
    it returns True and leaves the slot empty, the rest of the collector
    and the world as they were; and it returns (never raises) whatever
    accumulator it is called with. *)
Theorem C6_remove_only_the_stored_accumulator
    (k : kind) (st : DataCollector.state) (stored other : ref) :
  slot k (DataCollector.self st) = Some stored →
  (other ≠ stored → remove k other st = (st, inr false)) ∧
  (∃ st',
     remove k stored st = (st', inr true) ∧
     slot k (DataCollector.self st') = None ∧
     DataCollector.self st' = set_slot k None (DataCollector.self st) ∧
     DataCollector.world st' = DataCollector.world st) ∧
  (∀ accumulator, succeeded (remove k accumulator st)).
Proof.
  intros Hslot. split; [|split].
  - intros Hne. rewrite remove_eq, Hslot. rewrite decide_False; [done|congruence].
  - eexists. rewrite remove_eq, Hslot. rewrite decide_True by done.
    split; [done|]. simpl. split; [|done]. by destruct k.
  - intros accumulator. rewrite remove_eq. unfold succeeded. by case_decide.
Qed.

Lemma C6_remove_only_the_stored_accumulator_witness :
  (1%nat ≠ 0%nat → remove WaitingTimeKind 1%nat sample_state = (sample_state, inr false)) ∧
  (∃ st',
     remove WaitingTimeKind 0%nat sample_state = (st', inr true) ∧
     slot WaitingTimeKind (DataCollector.self st') = None ∧
     DataCollector.self st' = set_slot WaitingTimeKind None (DataCollector.self sample_state) ∧
     DataCollector.world st' = DataCollector.world sample_state) ∧
  (∀ accumulator, succeeded (remove WaitingTimeKind accumulator sample_state)).
Proof.
  apply (C6_remove_only_the_stored_accumulator WaitingTimeKind sample_state 0%nat 1%nat).
  reflexivity.
Defined.

(** ** Stopping *)

(** C8. One call of [stop_collecting] returns, unregisters the handle if
    there was one, and leaves the handle cleared, so that [initialised()]
    answers False; any number of further calls return and give back the
    very same state: nothing is unregistered again, and the handle, the
    tracked edges and the attached accumulators stay as they are. *)
Theorem C8_stop_collecting_idempotent (st : DataCollector.state) :
  ∃ st1,
    DataCollector.stop_collecting st = (st1, inr tt) ∧
    DataCollector.id (DataCollector.self st1) = None ∧
    DataCollector.initialised st1 = (st1, inr false) ∧
    traci_calls (DataCollector.world st1) =
      traci_calls (DataCollector.world st) ++
      match DataCollector.id (DataCollector.self st) with
      | Some handle => [RemoveStepListener handle]
      | None => []
      end ∧
    DataCollector.stop_collecting st1 = (st1, inr tt) ∧
    ∀ n : nat,
      for_each (replicate n tt) (λ _, DataCollector.stop_collecting) st1 = (st1, inr tt).
Proof.
  assert (Hnoop : ∀ s, DataCollector.id (DataCollector.self s) = None →
                       DataCollector.stop_collecting s = (s, inr tt)).
  { intros s Hid. unfold DataCollector.stop_collecting, bind, DataCollector.get_self.
    by rewrite Hid. }
  destruct st as [dc w].
  destruct (DataCollector.id dc) as [handle|] eqn:Hid.
  - eexists. split.
    { unfold DataCollector.stop_collecting, bind, DataCollector.get_self,
        DataCollector.in_world, DataCollector.set_self, removeStepListener, modify.
      simpl. rewrite Hid. reflexivity. }
    simpl. rewrite Hid. split; [done|]. split; [done|]. split; [done|].
    split; [by apply Hnoop|].
    induction n as [|n IH]; simpl; [done|].
    unfold bind. rewrite Hnoop by done. apply IH.
  - exists {| DataCollector.self := dc; DataCollector.world := w |}.
    split; [by apply Hnoop|]. simpl. rewrite Hid.
    split; [done|]. split.
    { unfold DataCollector.initialised, bind, DataCollector.get_self, ret. simpl.
      by rewrite Hid. }
    split; [by rewrite app_nil_r|]. split; [by apply Hnoop|].
    induction n as [|n IH]; simpl; [done|].
    unfold bind. rewrite Hnoop by done. apply IH.
Qed.

(** ** Configuration is not validated *)

Lemma read_fundamental_diagram (w : World) (fd : ref) (acc : FundamentalDiagram.t) :
  fundamental_diagrams w !! fd = Some acc →
  on_object fundamental_diagrams set_fundamental_diagrams fd get w = (w, inr acc).
Proof.
  intros H. unfold on_object, get. rewrite H. rewrite insert_id by done.
  by destruct w.
Qed.

Lemma resolve_edge_length_no_lane traci (fd : ref) (acc : FundamentalDiagram.t) lanes w :
  fundamental_diagrams w !! fd = Some acc →
  (∀ lane, lane ∈ lanes → lane_getEdgeID traci lane ≠ FundamentalDiagram.edge_id acc) →
  DataCollector.resolve_edge_length traci fd lanes w = (w, inr tt).
Proof.
  intros Hfd. induction lanes as [|lane lanes IH]; intros Hno; simpl; [done|].
  unfold bind. rewrite (read_fundamental_diagram w fd acc Hfd).
  rewrite decide_False by (apply Hno, list_elem_of_here).
  apply IH. intros l Hl. apply Hno. by apply list_elem_of_further.
Qed.

(** The first lane of the diagram's edge gives the edge its length. *)
Lemma resolve_edge_length_first_lane traci (fd : ref) (acc : FundamentalDiagram.t)
    before lane after w :
  fundamental_diagrams w !! fd = Some acc →
  (∀ l, l ∈ before → lane_getEdgeID traci l ≠ FundamentalDiagram.edge_id acc) →
  lane_getEdgeID traci lane = FundamentalDiagram.edge_id acc →
  DataCollector.resolve_edge_length traci fd (before ++ lane :: after) w =
    (set_fundamental_diagrams
       (<[fd := FundamentalDiagram.set_edge_length (PFloat (lane_getLength traci lane)) acc]>
          (fundamental_diagrams w)) w,
     inr tt).
Proof.
  intros Hfd Hno Hlane. induction before as [|l before IH]; simpl.
  - unfold bind. rewrite (read_fundamental_diagram w fd acc Hfd).
    rewrite decide_True by done. unfold on_object, modify. by rewrite Hfd.
  - unfold bind. rewrite (read_fundamental_diagram w fd acc Hfd).
    rewrite decide_False by (apply Hno, list_elem_of_here).
    apply IH. intros l' Hl'. apply Hno. by apply list_elem_of_further.
Qed.

(** C7, as the specification states it, fails: a TimeDistance accumulator
    with the inverted window (10, 5) is constructed without an error, and
    a FundamentalDiagram whose edge "E9" has no lane is attached without
    an error. *)
Lemma C7_configuration_errors_counterexample :
  (5 <= 10 ∧
   succeeded (new_TimeDistance ("in", "out") (10, 5) empty_world)) ∧
  ((∀ lane, lane ∈ lane_getIDList sample_traci → lane_getEdgeID sample_traci lane ≠ "E9") ∧
   succeeded (DataCollector.add_fundamental_diagram sample_traci 0%nat unresolved_state)).
Proof.
  split; split.
  - lia.
  - by vm_compute.
  - intros lane Hin. apply list_elem_of_In in Hin. simpl in Hin.
    destruct Hin as [<-|[<-|[]]]; by vm_compute.
  - by vm_compute.
Qed.

(** C7, amended. Neither configuration is validated. Constructing a
    TimeDistance accumulator with [stop <= start] returns the accumulator:
    its window length is [stop - start], not positive, so the slot arrays
    it would allocate are empty. Attaching a FundamentalDiagram none of
    whose edge's lanes is listed returns too: the collector stores the
    reference, and the accumulator, hence its edge length, is untouched. *)
Theorem C7_configuration_is_not_validated
    (traci : Traci) (st : DataCollector.state) (fd : ref) (acc : FundamentalDiagram.t)
    (route_edges : string * string) (start stop : Z) (w : World) :
  stop <= start →
  fundamental_diagrams (DataCollector.world st) !! fd = Some acc →
  (∀ lane, lane ∈ lane_getIDList traci →
     lane_getEdgeID traci lane ≠ FundamentalDiagram.edge_id acc) →
  (∃ w' r,
     new_TimeDistance route_edges (start, stop) w = (w', inr r) ∧
     time_distances w' !! r = Some (TimeDistance.init route_edges (start, stop)) ∧
     TimeDistance.time_diff (TimeDistance.init route_edges (start, stop)) = stop - start ∧
     py_repeat NaN (TimeDistance.time_diff (TimeDistance.init route_edges (start, stop))) = []) ∧
  DataCollector.add_fundamental_diagram traci fd st =
    ({| DataCollector.self :=
          DataCollector.set_fundamental_diagram (Some fd) (DataCollector.self st);
        DataCollector.world := DataCollector.world st |}, inr tt).
Proof.
  intros Hwin Hfd Hno. split.
  - eexists _, _. unfold new_TimeDistance, alloc. split; [done|]. simpl.
    rewrite lookup_insert_eq. split; [done|]. split; [done|].
    unfold py_repeat. by replace (Z.to_nat (stop - start)) with 0%nat by lia.
  - unfold DataCollector.add_fundamental_diagram, bind, DataCollector.set_self, modify,
      DataCollector.in_world.
    simpl. by rewrite (resolve_edge_length_no_lane traci fd acc _ _ Hfd Hno).
Qed.

Lemma C7_configuration_is_not_validated_witness :
  (∃ w' r,
     new_TimeDistance ("in", "out") (10, 5) empty_world = (w', inr r) ∧
     time_distances w' !! r = Some (TimeDistance.init ("in", "out") (10, 5)) ∧
     TimeDistance.time_diff (TimeDistance.init ("in", "out") (10, 5)) = 5 - 10 ∧
     py_repeat NaN (TimeDistance.time_diff (TimeDistance.init ("in", "out") (10, 5))) = []) ∧
  DataCollector.add_fundamental_diagram sample_traci 0%nat unresolved_state =
    ({| DataCollector.self :=
          DataCollector.set_fundamental_diagram (Some 0%nat)
            (DataCollector.self unresolved_state);
        DataCollector.world := DataCollector.world unresolved_state |}, inr tt).
Proof.
  apply (C7_configuration_is_not_validated sample_traci unresolved_state 0%nat
           (FundamentalDiagram.init "E9") ("in", "out") 10 5 empty_world).
  - lia.
  - reflexivity.
  - intros lane Hin. apply list_elem_of_In in Hin. simpl in Hin.
    destruct Hin as [<-|[<-|[]]]; by vm_compute.
Defined.

(** ** The tracked edges are computed once *)

Section CollectorFrame.
Context {X : Type} (proj : DataCollector.t → X).

Lemma keeps_get_self : keeps (λ st, proj (DataCollector.self st)) DataCollector.get_self.
Proof. done. Qed.

Lemma keeps_in_world {A} (m : M World A) :
  keeps (λ st, proj (DataCollector.self st)) (DataCollector.in_world m).
Proof.
  intros st. unfold DataCollector.in_world.
  by destruct (m (DataCollector.world st)).
Qed.

Lemma keeps_set_self (f : DataCollector.t → DataCollector.t) :
  (∀ dc, proj (f dc) = proj dc) →
  keeps (λ st, proj (DataCollector.self st)) (DataCollector.set_self f).
Proof. intros Hf st. simpl. apply Hf. Qed.
End CollectorFrame.

(** X30. No method assigns [self.edges] after [__init__]: stopping, attaching,
    detaching and stepping all leave the tracked edges as they are,
    whether they return or raise. *)
Lemma tracked_edges_never_change :
  let edges_of := λ st, DataCollector.edges (DataCollector.self st) in
  keeps edges_of DataCollector.stop_collecting ∧
  (∀ r, keeps edges_of (DataCollector.add_waiting_time r)) ∧
  (∀ r, keeps edges_of (DataCollector.add_throughput r)) ∧
  (∀ traci r, keeps edges_of (DataCollector.add_fundamental_diagram traci r)) ∧
  (∀ r, keeps edges_of (DataCollector.add_time_distance_diagram r)) ∧
  (∀ k r, keeps edges_of (remove k r)) ∧
  (∀ traci n, keeps edges_of (DataCollector.step traci n)).
Proof.
  intros edges_of. repeat apply conj.
  - unfold DataCollector.stop_collecting.
    apply keeps_bind; [apply (keeps_get_self DataCollector.edges)|]. intros dc.
    destruct (DataCollector.id dc); [|apply keeps_ret].
    apply keeps_bind; [apply (keeps_in_world DataCollector.edges)|]. intros _.
    by apply (keeps_set_self DataCollector.edges).
  - intros r. by apply (keeps_set_self DataCollector.edges).
  - intros r. by apply (keeps_set_self DataCollector.edges).
  - intros traci r. unfold DataCollector.add_fundamental_diagram.
    apply keeps_bind; [by apply (keeps_set_self DataCollector.edges)|]. intros _.
    apply (keeps_in_world DataCollector.edges).
  - intros r. by apply (keeps_set_self DataCollector.edges).
  - intros k r st. rewrite remove_eq. case_decide; [|done]. by destruct k.
  - intros traci n. unfold DataCollector.step.
    apply keeps_bind; [apply (keeps_get_self DataCollector.edges)|]. intros dc.
    do 4 (apply keeps_bind; [apply (keeps_in_world DataCollector.edges)|]; intros _).
    apply keeps_bind; [by apply (keeps_set_self DataCollector.edges)|]. intros _.
    apply keeps_ret.
Qed.

(** * Further properties of the code *)

(** ** Throughput.update on any accumulator *)

(** The three ways [update] can go, by what the accumulator holds for the
    edge. *)
Lemma Throughput_update_cases (tp : Throughput.t) edge now :
  Throughput.update edge now tp =
    match Throughput.vehicles_in_edge tp !! edge with
    | None =>
        ({| Throughput.vehicles_in_edge := <[edge := now]> (Throughput.vehicles_in_edge tp);
            Throughput.vehicles_left_count := <[edge := [0]]> (Throughput.vehicles_left_count tp);
            Throughput.edge_ids := Throughput.edge_ids tp |}, inr tt)
    | Some previous =>
        match Throughput.vehicles_left_count tp !! edge with
        | Some counts =>
            ({| Throughput.vehicles_in_edge := <[edge := now]> (Throughput.vehicles_in_edge tp);
                Throughput.vehicles_left_count :=
                  <[edge := counts ++ [Z.of_nat (size (previous ∖ now))]]>
                    (Throughput.vehicles_left_count tp);
                Throughput.edge_ids := Throughput.edge_ids tp |}, inr tt)
        | None =>
            ({| Throughput.vehicles_in_edge := <[edge := now]> (Throughput.vehicles_in_edge tp);
                Throughput.vehicles_left_count := Throughput.vehicles_left_count tp;
                Throughput.edge_ids := Throughput.edge_ids tp |}, inl KeyError)
        end
    end.
Proof.
  destruct (Throughput.vehicles_in_edge tp !! edge) as [previous|] eqn:Hin.
  - destruct (Throughput.vehicles_left_count tp !! edge) as [counts|] eqn:Hcnt.
    + by apply Throughput_update_later.
    + unfold Throughput.update, bind, get, modify, ret, put, raise. simpl.
      rewrite Hin. simpl. by rewrite Hcnt.
  - by apply Throughput_update_first.
Qed.

(** X1. An update for one edge leaves what is recorded for every other edge,
    and the configured edge subset, as it was, whether the call returns
    or raises. *)
Theorem Throughput_update_other_edges (tp : Throughput.t) (edge other : string)
    (now : gset string) :
  other ≠ edge →
  Throughput.vehicles_in_edge (Throughput.update edge now tp).1 !! other
    = Throughput.vehicles_in_edge tp !! other ∧
  Throughput.vehicles_left_count (Throughput.update edge now tp).1 !! other
    = Throughput.vehicles_left_count tp !! other ∧
  Throughput.edge_ids (Throughput.update edge now tp).1 = Throughput.edge_ids tp.
Proof.
  intros Hne. rewrite Throughput_update_cases.
  destruct (Throughput.vehicles_in_edge tp !! edge);
    [destruct (Throughput.vehicles_left_count tp !! edge)|];
    simpl; rewrite ?lookup_insert_ne by done; done.
Qed.

Lemma Throughput_update_other_edges_witness :
  Throughput.vehicles_in_edge
    (Throughput.update "E0" {["veh0"]} (Throughput.init None)).1 !! "E1"
    = Throughput.vehicles_in_edge (Throughput.init None) !! "E1" ∧
  Throughput.vehicles_left_count
    (Throughput.update "E0" {["veh0"]} (Throughput.init None)).1 !! "E1"
    = Throughput.vehicles_left_count (Throughput.init None) !! "E1" ∧
  Throughput.edge_ids (Throughput.update "E0" {["veh0"]} (Throughput.init None)).1
    = Throughput.edge_ids (Throughput.init None).
Proof.
  apply (Throughput_update_other_edges (Throughput.init None) "E0" "E1" {["veh0"]}).
  discriminate.
Defined.

(** X2. [update] raises exactly when the edge has a stored vehicle set but no
    list of counts; it then raises KeyError, having already replaced the
    stored set. It raises nothing else. *)
Theorem Throughput_update_raises_iff (tp : Throughput.t) (edge : string) (now : gset string) :
  (raised KeyError (Throughput.update edge now tp)
   ↔ is_Some (Throughput.vehicles_in_edge tp !! edge)
     ∧ Throughput.vehicles_left_count tp !! edge = None) ∧
  (∀ e, raised e (Throughput.update edge now tp) →
     e = KeyError ∧
     Throughput.vehicles_in_edge (Throughput.update edge now tp).1 !! edge = Some now ∧
     Throughput.vehicles_left_count (Throughput.update edge now tp).1
       = Throughput.vehicles_left_count tp).
Proof.
  unfold raised. rewrite Throughput_update_cases.
  destruct (Throughput.vehicles_in_edge tp !! edge) as [previous|];
    [destruct (Throughput.vehicles_left_count tp !! edge) as [counts|]|]; simpl.
  - split; [split; [done|by intros [_ ?]]|done].
  - split; [split; [by eauto|done]|].
    intros e [= <-]. by rewrite lookup_insert_eq.
  - split; [split; [done|by intros [[? ?] _]]|done].
Qed.

(** X3. On an accumulator whose two dictionaries have the same keys, [update]
    returns, the dictionaries again have the same keys, namely the old ones
    and the edge, and the stored set of the edge is the one passed. *)
Theorem Throughput_update_keeps_consistent (tp : Throughput.t) (edge : string)
    (now : gset string) :
  Throughput_consistent tp →
  succeeded (Throughput.update edge now tp) ∧
  Throughput_consistent (Throughput.update edge now tp).1 ∧
  dom (Throughput.vehicles_in_edge (Throughput.update edge now tp).1)
    = {[edge]} ∪ dom (Throughput.vehicles_in_edge tp) ∧
  Throughput.vehicles_in_edge (Throughput.update edge now tp).1 !! edge = Some now.
Proof.
  unfold Throughput_consistent, succeeded. intros Hdom.
  rewrite Throughput_update_cases.
  destruct (Throughput.vehicles_in_edge tp !! edge) as [previous|] eqn:Hin.
  - assert (is_Some (Throughput.vehicles_left_count tp !! edge)) as [counts Hcnt].
    { apply elem_of_dom. rewrite <- Hdom. apply elem_of_dom. eauto. }
    rewrite Hcnt. simpl. rewrite !dom_insert_L, lookup_insert_eq, Hdom. done.
  - simpl. rewrite !dom_insert_L, lookup_insert_eq, Hdom. done.
Qed.

Lemma Throughput_update_keeps_consistent_witness :
  succeeded (Throughput.update "E0" {["veh0"]} (Throughput.init None)) ∧
  Throughput_consistent (Throughput.update "E0" {["veh0"]} (Throughput.init None)).1 ∧
  dom (Throughput.vehicles_in_edge (Throughput.update "E0" {["veh0"]} (Throughput.init None)).1)
    = {["E0"]} ∪ dom (Throughput.vehicles_in_edge (Throughput.init None)) ∧
  Throughput.vehicles_in_edge (Throughput.update "E0" {["veh0"]} (Throughput.init None)).1
    !! "E0" = Some {["veh0"]}.
Proof.
  apply (Throughput_update_keeps_consistent (Throughput.init None) "E0" {["veh0"]}).
  reflexivity.
Defined.

(** X4. The count recorded for an edge that was observed before lies between 0
    and the size of the previous set; it is 0 when no vehicle of the
    previous set is missing (vehicles that only arrived are not counted),
    and the size of the previous set when none of its vehicles is still
    there. *)
Theorem Throughput_update_count_bounds (tp : Throughput.t) (edge : string)
    (previous now : gset string) (counts : list Z) :
  Throughput.vehicles_in_edge tp !! edge = Some previous →
  Throughput.vehicles_left_count tp !! edge = Some counts →
  ∃ count,
    Throughput.vehicles_left_count (Throughput.update edge now tp).1 !! edge
      = Some (counts ++ [count]) ∧
    0 <= count <= Z.of_nat (size previous) ∧
    (previous ⊆ now → count = 0) ∧
    (previous ## now → count = Z.of_nat (size previous)) ∧
    count + Z.of_nat (size (previous ∩ now)) = Z.of_nat (size previous).
Proof.
  intros Hin Hcnt. rewrite (Throughput_update_later tp edge now previous counts Hin Hcnt).
  simpl. rewrite lookup_insert_eq. eexists. split; [done|].
  assert (Hsplit : size previous = (size (previous ∖ now) + size (previous ∩ now))%nat).
  { rewrite <- size_union by set_solver. f_equal. apply set_eq. intros x.
    destruct (decide (x ∈ now)); set_solver. }
  split; [lia|]. split; [|split; [|lia]].
  - intros Hsub. replace (previous ∖ now) with (∅ : gset string) by set_solver.
    by rewrite size_empty.
  - intros Hdisj. f_equal. f_equal. set_solver.
Qed.

Lemma Throughput_update_count_bounds_witness :
  ∃ count,
    Throughput.vehicles_left_count
      (Throughput.update "E0" {["B"; "C"]}
         (Throughput.update "E0" {["A"; "B"]} (Throughput.init None)).1).1 !! "E0"
      = Some ([0] ++ [count]) ∧
    0 <= count <= Z.of_nat (size ({["A"; "B"]} : gset string)) ∧
    (({["A"; "B"]} : gset string) ⊆ {["B"; "C"]} → count = 0) ∧
    (({["A"; "B"]} : gset string) ## {["B"; "C"]} →
       count = Z.of_nat (size ({["A"; "B"]} : gset string))) ∧
    count + Z.of_nat (size (({["A"; "B"]} : gset string) ∩ {["B"; "C"]}))
      = Z.of_nat (size ({["A"; "B"]} : gset string)).
Proof.
  apply (Throughput_update_count_bounds
           (Throughput.update "E0" {["A"; "B"]} (Throughput.init None)).1
           "E0" {["A"; "B"]} {["B"; "C"]} [0]).
  - by vm_compute.
  - by vm_compute.
Defined.

(** ** FundamentalDiagram.update: what the columns hold *)

Lemma departed_from_empty (obs : list (gset string)) :
  departed_from (Some ∅) obs = departed_counts obs.
Proof.
  destruct obs as [|now obs]; [done|]. unfold departed_counts. simpl.
  f_equal. replace (∅ ∖ now) with (∅ : gset string) by set_solver.
  by rewrite size_empty.
Qed.

Lemma observations_same_edge {A} (edge : string) (calls : list (A * gset string)) :
  observations edge ((λ call, (edge, call.2)) <$> calls) = calls.*2.
Proof.
  unfold observations. induction calls as [|call calls IH]; [done|].
  rewrite fmap_cons, filter_cons. simpl. rewrite decide_True by done.
  rewrite fmap_cons. simpl. f_equal. apply IH.
Qed.

Lemma FundamentalDiagram_run_content edge_id (calls : list (number * gset string)) :
  ∃ fd,
    run_diagram_updates calls (FundamentalDiagram.init edge_id) = (fd, inr tt) ∧
    FundamentalDiagram.data fd !! "speed"
      = Some ((λ call, py_mul_float call.1 kmph_factor) <$> calls) ∧
    FundamentalDiagram.data fd !! "vehicle_count"
      = Some ((λ call, PInt (Z.of_nat (size call.2))) <$> calls) ∧
    FundamentalDiagram.data fd !! "flow" = Some (PInt <$> departed_counts (calls.*2)) ∧
    FundamentalDiagram.vehicles_in_edge fd = default ∅ (last (calls.*2)) ∧
    FundamentalDiagram.edge_id fd = edge_id ∧
    FundamentalDiagram.edge_length fd = PInt 0.
Proof.
  induction calls as [|[mean_speed now] calls IH] using rev_ind.
  - eexists. split; [done|]. by repeat split.
  - destruct IH as (fd & Hrun & Hs & Hv & Hf & Hin & Hid & Hlen).
    eexists. unfold run_diagram_updates in *.
    rewrite (for_each_snoc _ _ _ _ _ Hrun). simpl.
    rewrite (FundamentalDiagram_update_eq fd mean_speed now _ _ _ Hs Hf Hv).
    split; [done|]. simpl.
    rewrite !fmap_app. simpl.
    rewrite last_snoc, departed_counts_snoc, fmap_app. simpl.
    rewrite lookup_insert_ne by done. rewrite lookup_insert_ne by done.
    rewrite lookup_insert_eq. split; [done|].
    rewrite lookup_insert_ne by done. rewrite lookup_insert_eq. split; [done|].
    rewrite lookup_insert_eq. split; [|done].
    do 3 f_equal. rewrite Hin.
    destruct (last calls.*2) as [previous|]; simpl; [done|].
    replace (∅ ∖ now) with (∅ : gset string) by set_solver. by rewrite size_empty.
Qed.


(** X6. A FundamentalDiagram and a Throughput accumulator fed the same
    sequence of vehicle sets for one edge record the same numbers: the
    'flow' column is the edge's list of departed-counts. *)
Theorem FundamentalDiagram_flow_is_throughput :
  ∀ edge_id edge_ids edge (calls : list (number * gset string)),
    ∃ fd tp,
      run_diagram_updates calls (FundamentalDiagram.init edge_id) = (fd, inr tt) ∧
      run_updates ((λ call, (edge, call.2)) <$> calls) (Throughput.init edge_ids)
        = (tp, inr tt) ∧
      FundamentalDiagram.data fd !! "flow"
        = Some (PInt <$> default [] (Throughput.vehicles_left_count tp !! edge)).
Proof.
  intros edge_id edge_ids edge calls.
  destruct (FundamentalDiagram_run_content edge_id calls) as (fd & Hrun & _ & _ & Hflow & _).
  destruct (Throughput_run_tracks edge_ids ((λ call, (edge, call.2)) <$> calls))
    as (tp & Hrun' & Htr).
  exists fd, tp. split; [done|]. split; [done|].
  destruct (Htr edge) as [_ ->]. rewrite observations_same_edge, Hflow.
  case_decide as Hnil; [|done]. by rewrite Hnil.
Qed.

(** X7. [update] returns exactly when the three columns are present in
    [data]; otherwise it raises KeyError, and it raises nothing else. *)
Theorem FundamentalDiagram_update_raises_iff (fd : FundamentalDiagram.t)
    (mean_speed : number) (vehicle_ids : gset string) :
  (succeeded (FundamentalDiagram.update mean_speed vehicle_ids fd)
   ↔ is_Some (FundamentalDiagram.data fd !! "speed")
     ∧ is_Some (FundamentalDiagram.data fd !! "vehicle_count")
     ∧ is_Some (FundamentalDiagram.data fd !! "flow")) ∧
  (∀ e, raised e (FundamentalDiagram.update mean_speed vehicle_ids fd) → e = KeyError) ∧
  (FundamentalDiagram.data fd !! "speed" = None →
   (FundamentalDiagram.update mean_speed vehicle_ids fd).1 = fd).
Proof.
  unfold succeeded, raised.
  unfold FundamentalDiagram.update, FundamentalDiagram.data_append,
    bind, get, modify, ret, put, raise. simpl.
  destruct (FundamentalDiagram.data fd !! "speed") as [speed|] eqn:Hs; simpl.
  2: { split; [split; [done|by intros [[? ?] _]]|]. split; [congruence|done]. }
  rewrite lookup_insert_ne by done.
  destruct (FundamentalDiagram.data fd !! "vehicle_count") as [vc|] eqn:Hv; simpl.
  2: { split; [split; [done|by intros (_ & [? ?] & _)]|]. split; [congruence|done]. }
  rewrite lookup_insert_ne by done. rewrite lookup_insert_ne by done.
  destruct (FundamentalDiagram.data fd !! "flow") as [flow|] eqn:Hf; simpl.
  2: { split; [split; [done|by intros (_ & _ & [? ?])]|]. split; [congruence|done]. }
  split; [split; [by eauto|done]|]. split; [congruence|done].
Qed.

(** ** TimeDistance.update on any accumulator *)

Lemma TimeDistance_update_config (td : TimeDistance.t) vehicle distance time :
  TimeDistance.timespan (TimeDistance.update vehicle distance time td).1
    = TimeDistance.timespan td ∧
  TimeDistance.route_edges (TimeDistance.update vehicle distance time td).1
    = TimeDistance.route_edges td ∧
  TimeDistance.time_diff (TimeDistance.update vehicle distance time td).1
    = TimeDistance.time_diff td ∧
  TimeDistance.start_time (TimeDistance.update vehicle distance time td).1
    = TimeDistance.start_time td.
Proof. rewrite TimeDistance_update_eq. by destruct (py_index _ _). Qed.

Lemma TimeDistance_update_in_window (td : TimeDistance.t) vehicle distance start stop s :
  TimeDistance_wf td →
  TimeDistance.timespan td = (start, stop) →
  start <= s < stop →
  TimeDistance.update vehicle distance s td =
    (TimeDistance.set_data
       (λ _, <[vehicle := <[Z.to_nat (s - start) := distance]> (slots_of td vehicle)]>
               (TimeDistance.data td)) td,
     inr tt).
Proof.
  intros Hwf Hspan Hs.
  pose proof (slots_of_length td vehicle Hwf) as Hlen.
  destruct Hwf as (Hdiff & Hstart & _).
  rewrite Hspan in Hdiff, Hstart. simpl in Hdiff, Hstart.
  rewrite TimeDistance_update_eq, Hstart.
  by rewrite py_index_front by (rewrite Hlen, Hdiff; lia).
Qed.

(** X8. Whatever [update] calls a constructed accumulator receives, in or out
    of the window, returning or raising, every slot array it holds has the
    length of the window (0 for an empty or inverted one), and the window
    and the route edges stay the constructor's. *)
Theorem TimeDistance_slot_arrays_have_window_length :
  ∀ route_edges (timespan : Z * Z) (calls : list (string * number * Z)),
    map_Forall (λ _ slots, length slots = Z.to_nat (timespan.2 - timespan.1))
      (TimeDistance.data (TimeDistance_after calls (TimeDistance.init route_edges timespan))) ∧
    TimeDistance.timespan (TimeDistance_after calls (TimeDistance.init route_edges timespan))
      = timespan ∧
    TimeDistance.route_edges (TimeDistance_after calls (TimeDistance.init route_edges timespan))
      = route_edges.
Proof.
  intros route_edges timespan calls.
  cut (TimeDistance_wf (TimeDistance_after calls (TimeDistance.init route_edges timespan)) ∧
       TimeDistance.timespan (TimeDistance_after calls (TimeDistance.init route_edges timespan))
         = timespan ∧
       TimeDistance.route_edges (TimeDistance_after calls (TimeDistance.init route_edges timespan))
         = route_edges).
  { intros ((Hdiff & _ & Hlen) & Hspan & Hre). split; [|done].
    intros vehicle slots Hv. rewrite (Hlen vehicle slots Hv), Hdiff. by rewrite Hspan. }
  unfold TimeDistance_after.
  induction calls as [|[[vehicle distance] time] calls IH] using rev_ind.
  - split; [apply TimeDistance_init_wf|done].
  - rewrite fold_left_app. simpl. destruct IH as (Hwf & Hspan & Hre).
    split; [by apply TimeDistance_update_wf|].
    destruct (TimeDistance_update_config
                (fold_left (λ td call, (TimeDistance.update call.1.1 call.1.2 call.2 td).1)
                   calls (TimeDistance.init route_edges timespan))
                vehicle distance time) as (-> & -> & _).
    done.
Qed.

(** X9. An update for one vehicle leaves the slot arrays of all other vehicles
    as they were, whether the call returns or raises. *)
Theorem TimeDistance_update_other_vehicles (td : TimeDistance.t) (vehicle other : string)
    (distance : number) (time : Z) :
  other ≠ vehicle →
  TimeDistance.data (TimeDistance.update vehicle distance time td).1 !! other
    = TimeDistance.data td !! other.
Proof.
  intros Hne. rewrite TimeDistance_update_eq.
  destruct (py_index _ _); simpl; by rewrite lookup_insert_ne.
Qed.

Lemma TimeDistance_update_other_vehicles_witness :
  TimeDistance.data
    (TimeDistance.update "veh1" (PFloat 7) 101
       (TimeDistance.update "veh0" (PFloat 12.5) 105
          (TimeDistance.init ("in", "out") (100, 110))).1).1 !! "veh0"
  = TimeDistance.data
      (TimeDistance.update "veh0" (PFloat 12.5) 105
         (TimeDistance.init ("in", "out") (100, 110))).1 !! "veh0".
Proof.
  apply (TimeDistance_update_other_vehicles
           (TimeDistance.update "veh0" (PFloat 12.5) 105
              (TimeDistance.init ("in", "out") (100, 110))).1
           "veh1" "veh0" (PFloat 7) 101).
  discriminate.
Defined.

(** X10. In an accumulator with an empty or inverted window every [update]
    raises IndexError, whatever the step, and the vehicle is left with an
    empty slot array. *)
Theorem TimeDistance_empty_window_always_raises (td : TimeDistance.t) (vehicle : string)
    (distance : number) (start stop s : Z) :
  TimeDistance_wf td →
  TimeDistance.timespan td = (start, stop) →
  stop <= start →
  raised IndexError (TimeDistance.update vehicle distance s td) ∧
  TimeDistance.data (TimeDistance.update vehicle distance s td).1 !! vehicle = Some [].
Proof.
  intros Hwf Hspan Hempty.
  pose proof (slots_of_length td vehicle Hwf) as Hlen.
  destruct Hwf as (Hdiff & Hstart & _).
  rewrite Hspan in Hdiff. simpl in Hdiff. rewrite Hdiff in Hlen.
  replace (Z.to_nat (stop - start)) with 0%nat in Hlen by lia.
  unfold raised. rewrite TimeDistance_update_eq, Hlen.
  assert (Hout : py_index 0 (s - TimeDistance.start_time td) = None).
  { apply py_index_out. simpl. lia. }
  rewrite Hout. simpl. rewrite lookup_insert_eq.
  split; [done|]. f_equal. by apply nil_length_inv.
Qed.

Lemma TimeDistance_empty_window_always_raises_witness :
  raised IndexError
    (TimeDistance.update "veh0" (PFloat 12.5) 7 (TimeDistance.init ("in", "out") (10, 5))) ∧
  TimeDistance.data
    (TimeDistance.update "veh0" (PFloat 12.5) 7
       (TimeDistance.init ("in", "out") (10, 5))).1 !! "veh0" = Some [].
Proof.
  apply (TimeDistance_empty_window_always_raises
           (TimeDistance.init ("in", "out") (10, 5)) "veh0" (PFloat 12.5) 10 5 7).
  - apply TimeDistance_init_wf.
  - reflexivity.
  - lia.
Defined.

(** X11. An [update] that raises is not without effect: at a step at or after
    the end of the window (or more than a window length before its start)
    a vehicle seen for the first time is nevertheless entered with an
    all-sentinel slot array, while an accumulator that already holds the
    vehicle is left exactly as it was. *)
Theorem TimeDistance_failed_update_state (td : TimeDistance.t) (vehicle : string)
    (distance : number) (start stop s : Z) :
  TimeDistance_wf td →
  TimeDistance.timespan td = (start, stop) →
  s < start - (stop - start) ∨ s >= stop →
  raised IndexError (TimeDistance.update vehicle distance s td) ∧
  (TimeDistance.data td !! vehicle = None →
   TimeDistance.data (TimeDistance.update vehicle distance s td).1 !! vehicle
     = Some (replicate (Z.to_nat (stop - start)) NaN)) ∧
  (is_Some (TimeDistance.data td !! vehicle) →
   (TimeDistance.update vehicle distance s td).1 = td).
Proof.
  intros Hwf Hspan Hs.
  pose proof (slots_of_length td vehicle Hwf) as Hlen.
  destruct Hwf as (Hdiff & Hstart & _).
  rewrite Hspan in Hdiff, Hstart. simpl in Hdiff, Hstart. rewrite Hdiff in Hlen.
  unfold raised. rewrite TimeDistance_update_eq, Hstart.
  assert (Hout : py_index (length (slots_of td vehicle)) (s - start) = None).
  { apply py_index_out. rewrite Hlen. lia. }
  rewrite Hout. simpl. split; [done|]. split.
  - intros Hnew. rewrite lookup_insert_eq. unfold slots_of, py_repeat.
    by rewrite Hnew, Hdiff.
  - intros [slots Hv]. unfold slots_of. rewrite Hv. simpl.
    unfold TimeDistance.set_data. rewrite insert_id by done. by destruct td.
Qed.

Lemma TimeDistance_failed_update_state_witness :
  raised IndexError
    (TimeDistance.update "veh0" (PFloat 12.5) 110
       (TimeDistance.init ("in", "out") (100, 110))) ∧
  (TimeDistance.data (TimeDistance.init ("in", "out") (100, 110)) !! "veh0" = None →
   TimeDistance.data
     (TimeDistance.update "veh0" (PFloat 12.5) 110
        (TimeDistance.init ("in", "out") (100, 110))).1 !! "veh0"
     = Some (replicate (Z.to_nat (110 - 100)) NaN)) ∧
  (is_Some (TimeDistance.data (TimeDistance.init ("in", "out") (100, 110)) !! "veh0") →
   (TimeDistance.update "veh0" (PFloat 12.5) 110
      (TimeDistance.init ("in", "out") (100, 110))).1
   = TimeDistance.init ("in", "out") (100, 110)).
Proof.
  apply (TimeDistance_failed_update_state
           (TimeDistance.init ("in", "out") (100, 110)) "veh0" (PFloat 12.5) 100 110 110).
  - apply TimeDistance_init_wf.
  - reflexivity.
  - lia.
Defined.

(** X12. Two in-window updates that do not hit the same slot of the same
    vehicle can be made in either order: both orders return and leave the
    same accumulator. *)
Theorem TimeDistance_updates_commute (td : TimeDistance.t) (v1 v2 : string)
    (d1 d2 : number) (start stop s1 s2 : Z) :
  TimeDistance_wf td →
  TimeDistance.timespan td = (start, stop) →
  start <= s1 < stop →
  start <= s2 < stop →
  v1 ≠ v2 ∨ s1 ≠ s2 →
  succeeded (bind (TimeDistance.update v1 d1 s1) (λ _, TimeDistance.update v2 d2 s2) td) ∧
  bind (TimeDistance.update v1 d1 s1) (λ _, TimeDistance.update v2 d2 s2) td
    = bind (TimeDistance.update v2 d2 s2) (λ _, TimeDistance.update v1 d1 s1) td.
Proof.
  intros Hwf Hspan Hs1 Hs2 Hdiff.
  assert (Hstep : ∀ va da sa vb db sb,
            start <= sa < stop → start <= sb < stop →
            bind (TimeDistance.update va da sa) (λ _, TimeDistance.update vb db sb) td =
              (TimeDistance.set_data
                 (λ _, <[vb := <[Z.to_nat (sb - start) := db]>
                                 (if decide (va = vb)
                                  then <[Z.to_nat (sa - start) := da]> (slots_of td va)
                                  else slots_of td vb)]>
                         (<[va := <[Z.to_nat (sa - start) := da]> (slots_of td va)]>
                            (TimeDistance.data td))) td,
               inr tt)).
  { intros va da sa vb db sb Hsa Hsb. unfold bind.
    rewrite (TimeDistance_update_in_window td va da start stop sa Hwf Hspan Hsa).
    pose proof (TimeDistance_update_wf td va da sa Hwf) as Hwf'.
    rewrite (TimeDistance_update_in_window td va da start stop sa Hwf Hspan Hsa) in Hwf'.
    simpl in Hwf'.
    rewrite (TimeDistance_update_in_window _ vb db start stop sb Hwf' Hspan Hsb).
    unfold TimeDistance.set_data, slots_of. simpl. do 3 f_equal.
    case_decide as Hv.
    - subst vb. by rewrite lookup_insert_eq.
    - by rewrite lookup_insert_ne. }
  rewrite (Hstep v1 d1 s1 v2 d2 s2 Hs1 Hs2), (Hstep v2 d2 s2 v1 d1 s1 Hs2 Hs1).
  split; [done|]. unfold TimeDistance.set_data. do 2 f_equal.
  destruct (decide (v1 = v2)) as [->|Hv].
  - case_decide; [|done]. rewrite !insert_insert_eq.
    f_equal. apply list_insert_insert_ne. destruct Hdiff as [?|?]; [done|lia].
  - case_decide; [by subst|]. by apply insert_insert_ne.
Qed.

Lemma TimeDistance_updates_commute_witness :
  succeeded
    (bind (TimeDistance.update "veh0" (PFloat 12.5) 105)
       (λ _, TimeDistance.update "veh0" (PFloat 20) 106)
       (TimeDistance.init ("in", "out") (100, 110))) ∧
  bind (TimeDistance.update "veh0" (PFloat 12.5) 105)
    (λ _, TimeDistance.update "veh0" (PFloat 20) 106)
    (TimeDistance.init ("in", "out") (100, 110))
  = bind (TimeDistance.update "veh0" (PFloat 20) 106)
      (λ _, TimeDistance.update "veh0" (PFloat 12.5) 105)
      (TimeDistance.init ("in", "out") (100, 110)).
Proof.
  apply (TimeDistance_updates_commute
           (TimeDistance.init ("in", "out") (100, 110)) "veh0" "veh0"
           (PFloat 12.5) (PFloat 20) 100 110 105 106).
  - apply TimeDistance_init_wf.
  - reflexivity.
  - lia.
  - lia.
  - right. lia.
Defined.

(** ** DataCollector.__init__ *)

(** X13. The loop of [__init__] returns [tracked] exactly when the edge list is
    [tracked] followed by boundary edges only and [tracked] ends in an
    edge that is not a boundary edge (so boundary edges in the middle of
    the list stay); it raises, and then IndexError, exactly when every
    edge of the list is a boundary edge. *)
Theorem trim_returns_iff (edges : list string) :
  (∀ tracked,
     DataCollector.trim edges = inr tracked
     ↔ ∃ removed,
         edges = tracked ++ removed ∧
         Forall (λ edge, DataCollector.is_boundary edge = true) removed ∧
         ∃ final, last tracked = Some final ∧ DataCollector.is_boundary final = false) ∧
  (∀ e,
     DataCollector.trim edges = inl e
     ↔ e = IndexError ∧ Forall (λ edge, DataCollector.is_boundary edge = true) edges).
Proof.
  induction edges as [|x edges IH] using rev_ind.
  - rewrite trim_nil. split.
    + intros tracked. split; [done|].
      intros (removed & Heq & _ & final & Hlast & _).
      symmetry in Heq. apply app_eq_nil in Heq as [-> _]. done.
    + intros e. split; [by intros [= <-]|by intros [-> _]].
  - destruct IH as [IHr IHe]. rewrite trim_snoc.
    destruct (DataCollector.is_boundary x) eqn:Hx.
    + split.
      * intros tracked. rewrite IHr. split.
        -- intros (removed & -> & Hall & Hfinal).
           exists (removed ++ [x]). rewrite app_assoc. split; [done|].
           split; [|done]. apply Forall_app. split; [done|]. by apply Forall_singleton.
        -- intros (removed & Heq & Hall & final & Hlast & Hfinal).
           destruct removed as [|y removed _] using rev_ind.
           { rewrite app_nil_r in Heq. subst tracked. rewrite last_snoc in Hlast.
             congruence. }
           rewrite app_assoc in Heq. apply app_inj_tail in Heq as [-> ->].
           apply Forall_app in Hall as [Hall _]. eauto 10.
      * intros e. rewrite IHe. rewrite Forall_app, Forall_singleton. naive_solver.
    + split.
      * intros tracked. split.
        -- intros [= <-]. exists []. rewrite app_nil_r, last_snoc. eauto.
        -- intros (removed & Heq & Hall & final & Hlast & Hfinal).
           destruct removed as [|y removed _] using rev_ind.
           { rewrite app_nil_r in Heq. by subst. }
           rewrite app_assoc in Heq. apply app_inj_tail in Heq as [_ ->].
           apply Forall_app in Hall as [_ Hy]. apply Forall_inv in Hy. simpl in Hy. congruence.
      * intros e. split; [done|]. intros [_ Hall].
        apply Forall_app in Hall as [_ Hy]. apply Forall_inv in Hy. simpl in Hy. congruence.
Qed.

(** X14. [__init__] registers one step listener with the adapter, whether it
    then returns or raises, and touches no accumulator; when it returns,
    the collector holds the handle of that listener (so [initialised()]
    answers True), has no accumulator attached, a step count of 0, and
    tracks what the trimming loop returned. *)
Theorem init_registers_once (traci : Traci) (w : World) :
  traci_calls (DataCollector.init traci w).1
    = traci_calls w ++ [AddStepListener (next_listener w)] ∧
  next_listener (DataCollector.init traci w).1 = next_listener w + 1 ∧
  waiting_times (DataCollector.init traci w).1 = waiting_times w ∧
  throughputs (DataCollector.init traci w).1 = throughputs w ∧
  fundamental_diagrams (DataCollector.init traci w).1 = fundamental_diagrams w ∧
  time_distances (DataCollector.init traci w).1 = time_distances w ∧
  (∀ dc,
     (DataCollector.init traci w).2 = inr dc →
     DataCollector.id dc = Some (next_listener w) ∧
     (∀ w', DataCollector.initialised {| DataCollector.self := dc; DataCollector.world := w' |}
            = ({| DataCollector.self := dc; DataCollector.world := w' |}, inr true)) ∧
     (∀ k, slot k dc = None) ∧
     DataCollector.step_count dc = 0 ∧
     DataCollector.trim (edge_getIDList traci) = inr (DataCollector.edges dc)).
Proof.
  unfold DataCollector.init, bind, addStepListener, lift_exn, ret. simpl.
  destruct (DataCollector.trim (edge_getIDList traci)) as [e|edges]; simpl.
  - by repeat split.
  - repeat split; try done.
    + by injection H as <-.
    + injection H as <-. done.
    + injection H as <-. by destruct k.
    + by injection H as <-.
    + by injection H as <-.
Qed.

(** ** Attaching and detaching accumulators *)

Lemma resolve_edge_length_returns traci (fd : ref) (acc : FundamentalDiagram.t) lanes w :
  fundamental_diagrams w !! fd = Some acc →
  succeeded (DataCollector.resolve_edge_length traci fd lanes w).
Proof.
  intros Hfd. unfold succeeded. induction lanes as [|lane lanes IH]; simpl; [done|].
  unfold bind. rewrite (read_fundamental_diagram w fd acc Hfd).
  case_decide; [|done]. unfold on_object, modify. by rewrite Hfd.
Qed.

Lemma add_eq (k : kind) traci (accumulator : ref) (st : DataCollector.state) :
  (k = FundamentalDiagramKind →
   is_Some (fundamental_diagrams (DataCollector.world st) !! accumulator)) →
  ∃ w',
    add k traci accumulator st =
      ({| DataCollector.self := set_slot k (Some accumulator) (DataCollector.self st);
          DataCollector.world := w' |}, inr tt) ∧
    (k ≠ FundamentalDiagramKind → w' = DataCollector.world st).
Proof.
  intros Hfd. destruct k; simpl;
    try (eexists; split; [reflexivity|done]).
  destruct (Hfd eq_refl) as [acc Hacc].
  unfold DataCollector.add_fundamental_diagram, bind, DataCollector.set_self, modify,
    DataCollector.in_world. simpl.
  pose proof (resolve_edge_length_returns traci accumulator acc (lane_getIDList traci)
                (DataCollector.world st) Hacc) as Hret.
  unfold succeeded in Hret.
  destruct (DataCollector.resolve_edge_length traci accumulator (lane_getIDList traci)
              (DataCollector.world st)) as [w' [e|[]]]; [done|].
  by eexists.
Qed.

Lemma slot_set_slot_eq (k : kind) (x : option ref) (dc : DataCollector.t) :
  slot k (set_slot k x dc) = x.
Proof. by destruct k. Qed.

Lemma slot_set_slot_ne (k k' : kind) (x : option ref) (dc : DataCollector.t) :
  k' ≠ k → slot k' (set_slot k x dc) = slot k' dc.
Proof. by destruct k, k'. Qed.

(** X15. Attaching an accumulator (one that exists, for a FundamentalDiagram)
    returns, stores it in the slot of its kind and leaves the other slots
    alone; detaching it right away returns True and empties the slot. *)
Theorem attach_then_detach (k : kind) (traci : Traci) (st : DataCollector.state)
    (accumulator : ref) :
  (k = FundamentalDiagramKind →
   is_Some (fundamental_diagrams (DataCollector.world st) !! accumulator)) →
  ∃ st1 st2,
    add k traci accumulator st = (st1, inr tt) ∧
    slot k (DataCollector.self st1) = Some accumulator ∧
    (∀ k', k' ≠ k → slot k' (DataCollector.self st1) = slot k' (DataCollector.self st)) ∧
    DataCollector.edges (DataCollector.self st1) = DataCollector.edges (DataCollector.self st) ∧
    remove k accumulator st1 = (st2, inr true) ∧
    slot k (DataCollector.self st2) = None ∧
    DataCollector.world st2 = DataCollector.world st1.
Proof.
  intros Hfd. destruct (add_eq k traci accumulator st Hfd) as (w' & Hadd & _).
  eexists _, _. split; [exact Hadd|]. simpl.
  rewrite slot_set_slot_eq. split; [done|]. split.
  { intros k' Hne. by rewrite slot_set_slot_ne. }
  split; [by destruct k|].
  rewrite remove_eq. simpl. rewrite slot_set_slot_eq.
  rewrite decide_True by done. split; [done|]. simpl.
  by rewrite slot_set_slot_eq.
Qed.

Lemma attach_then_detach_witness :
  ∃ st1 st2,
    add FundamentalDiagramKind sample_traci 0%nat unresolved_state = (st1, inr tt) ∧
    slot FundamentalDiagramKind (DataCollector.self st1) = Some 0%nat ∧
    (∀ k', k' ≠ FundamentalDiagramKind →
       slot k' (DataCollector.self st1) = slot k' (DataCollector.self unresolved_state)) ∧
    DataCollector.edges (DataCollector.self st1)
      = DataCollector.edges (DataCollector.self unresolved_state) ∧
    remove FundamentalDiagramKind 0%nat st1 = (st2, inr true) ∧
    slot FundamentalDiagramKind (DataCollector.self st2) = None ∧
    DataCollector.world st2 = DataCollector.world st1.
Proof.
  apply (attach_then_detach FundamentalDiagramKind sample_traci unresolved_state 0%nat).
  intros _. eexists. reflexivity.
Defined.

(** X16. Attaching a second accumulator of a kind replaces the first in the
    slot: detaching the first then returns False and changes nothing, and
    the second stays attached. For the kinds other than FundamentalDiagram
    the two attachments leave the store, and so the replaced accumulator,
    as they were. *)
Theorem attach_replaces (k : kind) (traci : Traci) (st : DataCollector.state)
    (first second : ref) :
  first ≠ second →
  (k = FundamentalDiagramKind →
   is_Some (fundamental_diagrams (DataCollector.world st) !! first) ∧
   is_Some (fundamental_diagrams (DataCollector.world st) !! second)) →
  ∃ st2,
    bind (add k traci first) (λ _, add k traci second) st = (st2, inr tt) ∧
    slot k (DataCollector.self st2) = Some second ∧
    remove k first st2 = (st2, inr false) ∧
    (k ≠ FundamentalDiagramKind → DataCollector.world st2 = DataCollector.world st).
Proof.
  intros Hne Hfd.
  destruct (add_eq k traci first st) as (w1 & Hadd1 & Hw1).
  { intros Hk. by destruct (Hfd Hk). }
  assert (Hsecond : k = FundamentalDiagramKind → is_Some (fundamental_diagrams w1 !! second)).
  { intros ->. destruct (Hfd eq_refl) as [[acc1 Hacc1] [acc2 Hacc2]].
    simpl in Hadd1.
    unfold DataCollector.add_fundamental_diagram, bind, DataCollector.set_self, modify,
      DataCollector.in_world in Hadd1. simpl in Hadd1.
    assert (Hkeep : ∀ lanes w, fundamental_diagrams w !! first = Some acc1 →
              fundamental_diagrams
                (DataCollector.resolve_edge_length traci first lanes w).1 !! second
              = fundamental_diagrams w !! second).
    { induction lanes as [|lane lanes IH]; intros w Hf; simpl; [done|].
      unfold bind. rewrite (read_fundamental_diagram w first acc1 Hf).
      case_decide; [|by apply IH].
      unfold on_object, modify. rewrite Hf. simpl. by rewrite lookup_insert_ne. }
    specialize (Hkeep (lane_getIDList traci) (DataCollector.world st) Hacc1).
    destruct (DataCollector.resolve_edge_length traci first (lane_getIDList traci)
                (DataCollector.world st)) as [w1' res]. simpl in *.
    injection Hadd1 as <- _. rewrite Hkeep. eauto. }
  destruct (add_eq k traci second
              {| DataCollector.self := set_slot k (Some first) (DataCollector.self st);
                 DataCollector.world := w1 |} Hsecond) as (w2 & Hadd2 & Hw2).
  eexists. unfold bind. rewrite Hadd1, Hadd2. split; [done|]. simpl.
  rewrite slot_set_slot_eq. split; [done|]. split.
  - rewrite remove_eq. simpl. rewrite slot_set_slot_eq.
    rewrite decide_False; [done|congruence].
  - intros Hk. simpl in Hw2. by rewrite (Hw2 Hk), (Hw1 Hk).
Qed.

Lemma attach_replaces_witness :
  ∃ st2,
    bind (add WaitingTimeKind sample_traci 0%nat) (λ _, add WaitingTimeKind sample_traci 1%nat)
      unresolved_state = (st2, inr tt) ∧
    slot WaitingTimeKind (DataCollector.self st2) = Some 1%nat ∧
    remove WaitingTimeKind 0%nat st2 = (st2, inr false) ∧
    (WaitingTimeKind ≠ FundamentalDiagramKind →
     DataCollector.world st2 = DataCollector.world unresolved_state).
Proof.
  apply (attach_replaces WaitingTimeKind sample_traci unresolved_state 0%nat 1%nat).
  - discriminate.
  - discriminate.
Defined.

(** X17. Attaching a FundamentalDiagram gives it the length of the first lane,
    in the adapter's order, whose edge is the diagram's edge; later lanes
    of that edge are not consulted, and nothing else of the diagram, nor
    any other object, changes. *)
Theorem add_fundamental_diagram_takes_first_lane
    (traci : Traci) (st : DataCollector.state) (fd : ref) (acc : FundamentalDiagram.t)
    (before after : list string) (lane : string) :
  fundamental_diagrams (DataCollector.world st) !! fd = Some acc →
  lane_getIDList traci = before ++ lane :: after →
  (∀ l, l ∈ before → lane_getEdgeID traci l ≠ FundamentalDiagram.edge_id acc) →
  lane_getEdgeID traci lane = FundamentalDiagram.edge_id acc →
  DataCollector.add_fundamental_diagram traci fd st =
    ({| DataCollector.self :=
          DataCollector.set_fundamental_diagram (Some fd) (DataCollector.self st);
        DataCollector.world :=
          set_fundamental_diagrams
            (<[fd := FundamentalDiagram.set_edge_length
                       (PFloat (lane_getLength traci lane)) acc]>
               (fundamental_diagrams (DataCollector.world st)))
            (DataCollector.world st) |},
     inr tt).
Proof.
  intros Hfd Hlanes Hbefore Hlane.
  unfold DataCollector.add_fundamental_diagram, bind, DataCollector.set_self, modify,
    DataCollector.in_world. simpl. rewrite Hlanes.
  by rewrite (resolve_edge_length_first_lane traci fd acc before lane after _
                Hfd Hbefore Hlane).
Qed.

Lemma add_fundamental_diagram_takes_first_lane_witness :
  DataCollector.add_fundamental_diagram sample_traci 0%nat resolvable_state =
    ({| DataCollector.self :=
          DataCollector.set_fundamental_diagram (Some 0%nat)
            (DataCollector.self resolvable_state);
        DataCollector.world :=
          set_fundamental_diagrams
            (<[0%nat := FundamentalDiagram.set_edge_length
                          (PFloat (lane_getLength sample_traci "E1_0"))
                          (FundamentalDiagram.init "E1")]>
               (fundamental_diagrams (DataCollector.world resolvable_state)))
            (DataCollector.world resolvable_state) |},
     inr tt).
Proof.
  apply (add_fundamental_diagram_takes_first_lane sample_traci resolvable_state 0%nat
           (FundamentalDiagram.init "E1") ["E0_0"] [] "E1_0").
  - reflexivity.
  - reflexivity.
  - intros l Hl. apply list_elem_of_In in Hl. simpl in Hl.
    destruct Hl as [<-|[]]. by vm_compute.
  - reflexivity.
Defined.

(** ** DataCollector.step: what it changes and what it leaves alone *)

Lemma step_eq (traci : Traci) (n : Z) (dc : DataCollector.t) (w : World) :
  DataCollector.step traci n {| DataCollector.self := dc; DataCollector.world := w |} =
    match (step_world traci dc w).2 with
    | inr _ =>
        ({| DataCollector.self :=
              DataCollector.set_step_count (DataCollector.step_count dc + 1) dc;
            DataCollector.world := (step_world traci dc w).1 |}, inr true)
    | inl e =>
        ({| DataCollector.self := dc; DataCollector.world := (step_world traci dc w).1 |},
         inl e)
    end.
Proof.
  unfold DataCollector.step, step_world, bind, DataCollector.get_self,
    DataCollector.in_world, DataCollector.set_self, modify, ret. simpl.
  destruct (DataCollector.step_waiting_time traci dc w) as [w1 [e1|[]]]; simpl; [done|].
  destruct (DataCollector.step_throughput traci dc w1) as [w2 [e2|[]]]; simpl; [done|].
  destruct (DataCollector.step_fundamental_diagram traci dc w2) as [w3 [e3|[]]]; simpl; [done|].
  by destruct (DataCollector.step_time_distance_diagram traci dc w3) as [w4 [e4|[]]].
Qed.

Lemma keeps_on_object_at {S X O A} (proj : S → X) (heap : S → gmap ref O) set_heap r
    (m : M O A) :
  (∀ o s, proj (set_heap (<[r := o]> (heap s)) s) = proj s) →
  keeps proj (on_object heap set_heap r m).
Proof.
  intros Hset s. unfold on_object.
  destruct (heap s !! r) as [o|]; [|done].
  destruct (m o) as [o' res]. simpl. apply Hset.
Qed.

Section StepFrame.
Context {X : Type} (proj : World → X) (traci : Traci) (dc : DataCollector.t).

Lemma step_waiting_time_keeps_any :
  (∀ r, DataCollector.waiting_time dc = Some r →
        ∀ o w, proj (set_waiting_times (<[r := o]> (waiting_times w)) w) = proj w) →
  keeps proj (DataCollector.step_waiting_time traci dc).
Proof.
  intros Hset. unfold DataCollector.step_waiting_time.
  destruct (DataCollector.waiting_time dc) as [r|]; [|apply keeps_ret].
  apply keeps_bind; [apply keeps_local|]. intros snapshot.
  apply keeps_on_object_at. by apply Hset.
Qed.

Lemma step_throughput_keeps_any :
  (∀ r, DataCollector.throughput dc = Some r →
        ∀ o w, proj (set_throughputs (<[r := o]> (throughputs w)) w) = proj w) →
  keeps proj (DataCollector.step_throughput traci dc).
Proof.
  intros Hset. unfold DataCollector.step_throughput.
  destruct (DataCollector.throughput dc) as [r|]; [|apply keeps_ret].
  specialize (Hset r eq_refl).
  apply keeps_bind; [by apply keeps_on_object_at|]. intros tp.
  apply keeps_for_each. intros edge. by apply keeps_on_object_at.
Qed.

Lemma step_fundamental_diagram_keeps_any :
  (∀ r, DataCollector.fundamental_diagram dc = Some r →
        ∀ o w, proj (set_fundamental_diagrams (<[r := o]> (fundamental_diagrams w)) w)
               = proj w) →
  keeps proj (DataCollector.step_fundamental_diagram traci dc).
Proof.
  intros Hset. unfold DataCollector.step_fundamental_diagram.
  destruct (DataCollector.fundamental_diagram dc) as [r|]; [|apply keeps_ret].
  specialize (Hset r eq_refl).
  apply keeps_bind; [by apply keeps_on_object_at|]. intros fd. simpl.
  apply keeps_bind; [|intros; by apply keeps_on_object_at].
  case_decide; [apply keeps_lift_exn | apply keeps_ret].
Qed.

Lemma step_time_distance_diagram_keeps_any :
  (∀ r, DataCollector.time_distance_diagram dc = Some r →
        ∀ o w, proj (set_time_distances (<[r := o]> (time_distances w)) w) = proj w) →
  keeps proj (DataCollector.step_time_distance_diagram traci dc).
Proof.
  intros Hset. unfold DataCollector.step_time_distance_diagram.
  destruct (DataCollector.time_distance_diagram dc) as [r|]; [|apply keeps_ret].
  specialize (Hset r eq_refl).
  apply keeps_bind; [by apply keeps_on_object_at|]. intros td.
  case_decide; [|apply keeps_ret]. simpl.
  apply keeps_for_each. intros vehicle.
  apply keeps_bind; [apply keeps_lift_exn|]. intros origin.
  apply keeps_bind; [by apply keeps_on_object_at|]. intros td'.
  case_decide; [|apply keeps_ret].
  apply keeps_bind; [apply keeps_lift_exn|]. intros destination.
  case_decide; [|apply keeps_ret]. by apply keeps_on_object_at.
Qed.

Lemma step_world_keeps_any :
  (∀ r, DataCollector.waiting_time dc = Some r →
        ∀ o w, proj (set_waiting_times (<[r := o]> (waiting_times w)) w) = proj w) →
  (∀ r, DataCollector.throughput dc = Some r →
        ∀ o w, proj (set_throughputs (<[r := o]> (throughputs w)) w) = proj w) →
  (∀ r, DataCollector.fundamental_diagram dc = Some r →
        ∀ o w, proj (set_fundamental_diagrams (<[r := o]> (fundamental_diagrams w)) w)
               = proj w) →
  (∀ r, DataCollector.time_distance_diagram dc = Some r →
        ∀ o w, proj (set_time_distances (<[r := o]> (time_distances w)) w) = proj w) →
  keeps proj (step_world traci dc).
Proof.
  intros H1 H2 H3 H4. unfold step_world.
  apply keeps_bind; [by apply step_waiting_time_keeps_any|]. intros _.
  apply keeps_bind; [by apply step_throughput_keeps_any|]. intros _.
  apply keeps_bind; [by apply step_fundamental_diagram_keeps_any|]. intros _.
  by apply step_time_distance_diagram_keeps_any.
Qed.
End StepFrame.

Lemma step_world_of_step (traci : Traci) (n : Z) (st : DataCollector.state) :
  DataCollector.world (DataCollector.step traci n st).1
    = (step_world traci (DataCollector.self st) (DataCollector.world st)).1.
Proof.
  destruct st as [dc w]. rewrite step_eq. simpl.
  by destruct (step_world traci dc w).2.
Qed.

(** X18. When [step] returns, it returns True and has added exactly one to the
    step count, leaving the handle, the tracked edges and the four slots
    as they were; when it raises, the collector object is unchanged (the
    step is then not counted). In both cases nothing is registered with or
    removed from the adapter. *)
Theorem step_outcome (traci : Traci) (n : Z) (st : DataCollector.state) :
  match (DataCollector.step traci n st).2 with
  | inr result =>
      result = true ∧
      DataCollector.self (DataCollector.step traci n st).1
        = DataCollector.set_step_count
            (DataCollector.step_count (DataCollector.self st) + 1) (DataCollector.self st)
  | inl _ => DataCollector.self (DataCollector.step traci n st).1 = DataCollector.self st
  end ∧
  traci_calls (DataCollector.world (DataCollector.step traci n st).1)
    = traci_calls (DataCollector.world st) ∧
  next_listener (DataCollector.world (DataCollector.step traci n st).1)
    = next_listener (DataCollector.world st).
Proof.
  split.
  - destruct st as [dc w]. rewrite step_eq.
    by destruct (step_world traci dc w).2.
  - rewrite step_world_of_step.
    split; by apply (step_world_keeps_any _ traci (DataCollector.self st)).
Qed.

(** X19. A step mutates no accumulator other than the attached ones: an object
    of the store that is not in the slot of its kind (never attached,
    detached, or replaced by a later attachment) is the same after the
    step, whether the step returns or raises. *)
Theorem step_touches_only_attached (traci : Traci) (n : Z) (st : DataCollector.state)
    (k : kind) (r : ref) :
  slot k (DataCollector.self st) ≠ Some r →
  object_at k r (DataCollector.world (DataCollector.step traci n st).1)
    = object_at k r (DataCollector.world st).
Proof.
  intros Hne. rewrite step_world_of_step.
  apply (step_world_keeps_any (object_at k r) traci (DataCollector.self st));
    intros r' Hr' o w; destruct k; simpl in *; try done;
    (rewrite lookup_insert_ne; [done|congruence]).
Qed.

Lemma step_touches_only_attached_witness :
  object_at FundamentalDiagramKind 0%nat
    (DataCollector.world (DataCollector.step sample_traci 0 unresolved_state).1)
  = object_at FundamentalDiagramKind 0%nat (DataCollector.world unresolved_state).
Proof.
  apply (step_touches_only_attached sample_traci 0 unresolved_state
           FundamentalDiagramKind 0%nat).
  discriminate.
Defined.

(** ** DataCollector.step does not look at the registration *)

Section Commutes.
Context {S : Type} (f : S → S).

Lemma commutes_ret {A} (a : A) : commutes f (ret a).
Proof. done. Qed.

Lemma commutes_lift_exn {A} (r : exn + A) : commutes f (lift_exn r).
Proof. done. Qed.

Lemma commutes_bind {A B} (m : M S A) (k : A → M S B) :
  commutes f m → (∀ a, commutes f (k a)) → commutes f (bind m k).
Proof.
  intros Hm Hk s. unfold bind. rewrite Hm.
  destruct (m s) as [s1 [e|a]]; simpl; [done|]. apply Hk.
Qed.

Lemma commutes_for_each {A} (l : list A) (body : A → M S unit) :
  (∀ x, commutes f (body x)) → commutes f (for_each l body).
Proof.
  intros Hbody. induction l as [|x l IH]; simpl; [apply commutes_ret|].
  by apply commutes_bind.
Qed.

Lemma commutes_local {L} (init : L) (m : M L unit) : commutes f (local init m).
Proof. intros s. unfold local. by destruct (m init) as [l [e|[]]]. Qed.

Lemma commutes_on_object {O A} (heap : S → gmap ref O) set_heap r (m : M O A) :
  (∀ s, heap (f s) = heap s) →
  (∀ h s, set_heap h (f s) = f (set_heap h s)) →
  commutes f (on_object heap set_heap r m).
Proof.
  intros Hheap Hset s. unfold on_object. rewrite Hheap.
  destruct (heap s !! r) as [o|]; [|done].
  destruct (m o) as [o' res]. simpl. by rewrite Hset.
Qed.
End Commutes.

Lemma step_world_commutes_log (call : traci_call) (traci : Traci) (dc : DataCollector.t) :
  commutes (log_call call) (step_world traci dc).
Proof.
  unfold step_world.
  apply commutes_bind.
  { unfold DataCollector.step_waiting_time.
    destruct (DataCollector.waiting_time dc); [|apply commutes_ret].
    apply commutes_bind; [apply commutes_local|]. intros snapshot.
    by apply commutes_on_object. }
  intros _. apply commutes_bind.
  { unfold DataCollector.step_throughput.
    destruct (DataCollector.throughput dc); [|apply commutes_ret].
    apply commutes_bind; [by apply commutes_on_object|]. intros tp.
    apply commutes_for_each. intros edge. by apply commutes_on_object. }
  intros _. apply commutes_bind.
  { unfold DataCollector.step_fundamental_diagram.
    destruct (DataCollector.fundamental_diagram dc); [|apply commutes_ret].
    apply commutes_bind; [by apply commutes_on_object|]. intros fd. simpl.
    apply commutes_bind; [|intros; by apply commutes_on_object].
    case_decide; [apply commutes_lift_exn | apply commutes_ret]. }
  intros _.
  unfold DataCollector.step_time_distance_diagram.
  destruct (DataCollector.time_distance_diagram dc); [|apply commutes_ret].
  apply commutes_bind; [by apply commutes_on_object|]. intros td.
  case_decide; [|apply commutes_ret]. simpl.
  apply commutes_for_each. intros vehicle.
  apply commutes_bind; [apply commutes_lift_exn|]. intros origin.
  apply commutes_bind; [by apply commutes_on_object|]. intros td'.
  case_decide; [|apply commutes_ret].
  apply commutes_bind; [apply commutes_lift_exn|]. intros destination.
  case_decide; [|apply commutes_ret]. by apply commutes_on_object.
Qed.

(** X20. [step] never consults the handle: on a collector that has been
    stopped it does exactly what it would have done otherwise. It returns
    or raises alike, counts the step alike, and leaves every accumulator
    of the store in the same state; that no step runs after
    [stop_collecting] is up to the adapter, which no longer calls it. *)
Theorem step_after_stop (traci : Traci) (n : Z) (st : DataCollector.state) :
  ∃ st1,
    DataCollector.stop_collecting st = (st1, inr tt) ∧
    (DataCollector.step traci n st1).2 = (DataCollector.step traci n st).2 ∧
    (∀ k r,
       object_at k r (DataCollector.world (DataCollector.step traci n st1).1)
       = object_at k r (DataCollector.world (DataCollector.step traci n st).1)) ∧
    DataCollector.step_count (DataCollector.self (DataCollector.step traci n st1).1)
      = DataCollector.step_count (DataCollector.self (DataCollector.step traci n st).1).
Proof.
  destruct st as [dc w].
  destruct (DataCollector.id dc) as [handle|] eqn:Hid.
  - exists {| DataCollector.self := DataCollector.set_id None dc;
              DataCollector.world := log_call (RemoveStepListener handle) w |}.
    split.
    { unfold DataCollector.stop_collecting, bind, DataCollector.get_self,
        DataCollector.in_world, DataCollector.set_self, removeStepListener, modify.
      simpl. by rewrite Hid. }
    rewrite !step_eq.
    change (step_world traci (DataCollector.set_id None dc)) with (step_world traci dc).
    rewrite (step_world_commutes_log (RemoveStepListener handle) traci dc w). simpl.
    destruct (step_world traci dc w) as [w' [e|[]]]; simpl;
      (split; [done|]; split; [|done]; intros k r; by destruct k).
  - exists {| DataCollector.self := dc; DataCollector.world := w |}.
    split; [|done].
    unfold DataCollector.stop_collecting, bind, DataCollector.get_self. simpl.
    by rewrite Hid.
Qed.

(** ** Blocks of [step] as methods of the attached object *)

Global Instance waiting_times_lens : HeapLens waiting_times set_waiting_times.
Proof. split; [done|done|by intros []]. Qed.

Global Instance throughputs_lens : HeapLens throughputs set_throughputs.
Proof. split; [done|done|by intros []]. Qed.

Global Instance fundamental_diagrams_lens :
  HeapLens fundamental_diagrams set_fundamental_diagrams.
Proof. split; [done|done|by intros []]. Qed.

Global Instance time_distances_lens : HeapLens time_distances set_time_distances.
Proof. split; [done|done|by intros []]. Qed.

Section Lifts.
Context {S O : Type} (heap : S → gmap ref O) (set_heap : gmap ref O → S → S).
Context `{!HeapLens heap set_heap} (r : ref).

Lemma on_object_eq {A} (m : M O A) s o :
  heap s !! r = Some o →
  on_object heap set_heap r m s = (set_heap (<[r := (m o).1]> (heap s)) s, (m o).2).
Proof. intros H. unfold on_object. rewrite H. by destruct (m o). Qed.

Lemma on_object_unchanged {A} (m : M O A) s o :
  heap s !! r = Some o → (m o).1 = o →
  on_object heap set_heap r m s = (s, (m o).2).
Proof.
  intros H Hm. rewrite (on_object_eq m s o H), Hm.
  by rewrite insert_id, set_heap_id.
Qed.

Lemma lifts_on_object {A} (m : M O A) : lifts heap set_heap r m (on_object heap set_heap r m).
Proof. by intros s o _. Qed.

Lemma lifts_ret {A} (a : A) : lifts heap set_heap r (ret a) (ret a).
Proof. intros s o H. by rewrite (on_object_unchanged _ s o H). Qed.

Lemma lifts_lift_exn {A} (x : exn + A) : lifts heap set_heap r (lift_exn x) (lift_exn x).
Proof. intros s o H. by rewrite (on_object_unchanged _ s o H). Qed.

Lemma lifts_bind {A B} (m : M O A) (mw : M S A) (k : A → M O B) (kw : A → M S B) :
  lifts heap set_heap r m mw →
  (∀ a, lifts heap set_heap r (k a) (kw a)) →
  lifts heap set_heap r (bind m k) (bind mw kw).
Proof.
  intros Hm Hk s o H. unfold bind at 1. rewrite (Hm s o H).
  rewrite !(on_object_eq _ s o H). unfold bind.
  destruct (m o) as [o1 [e|a]]; simpl; [done|].
  rewrite (Hk a _ o1) by (by rewrite heap_set, lookup_insert_eq).
  rewrite (on_object_eq _ _ o1) by (by rewrite heap_set, lookup_insert_eq).
  by rewrite heap_set, set_set, insert_insert_eq.
Qed.

Lemma lifts_for_each {A} (l : list A) (body : A → M O unit) (bodyw : A → M S unit) :
  (∀ x, lifts heap set_heap r (body x) (bodyw x)) →
  lifts heap set_heap r (for_each l body) (for_each l bodyw).
Proof.
  intros Hbody. induction l as [|x l IH]; simpl; [apply lifts_ret|].
  by apply lifts_bind.
Qed.
End Lifts.

Lemma step_throughput_lifts (traci : Traci) (dc : DataCollector.t) (r : ref) :
  DataCollector.throughput dc = Some r →
  lifts throughputs set_throughputs r
    (throughput_block traci (DataCollector.edges dc))
    (DataCollector.step_throughput traci dc).
Proof.
  intros Hr. unfold DataCollector.step_throughput, throughput_block. rewrite Hr.
  apply lifts_bind; [apply _|apply lifts_on_object|]. intros tp.
  apply lifts_for_each; [apply _|]. intros edge. apply lifts_on_object.
Qed.

Lemma step_time_distance_diagram_lifts (traci : Traci) (dc : DataCollector.t) (r : ref) :
  DataCollector.time_distance_diagram dc = Some r →
  lifts time_distances set_time_distances r
    (time_distance_block traci (DataCollector.step_count dc))
    (DataCollector.step_time_distance_diagram traci dc).
Proof.
  intros Hr. unfold DataCollector.step_time_distance_diagram, time_distance_block.
  rewrite Hr.
  apply lifts_bind; [apply _|apply lifts_on_object|]. intros td.
  case_decide; [|apply lifts_ret; apply _]. simpl.
  apply lifts_for_each; [apply _|]. intros vehicle. unfold record_vehicle.
  apply lifts_bind; [apply _|apply lifts_lift_exn; apply _|]. intros origin.
  apply lifts_bind; [apply _|apply lifts_on_object|]. intros td'.
  case_decide; [|apply lifts_ret; apply _].
  apply lifts_bind; [apply _|apply lifts_lift_exn; apply _|]. intros destination.
  case_decide; [|apply lifts_ret; apply _]. apply lifts_on_object.
Qed.

Lemma step_fundamental_diagram_lifts (traci : Traci) (dc : DataCollector.t) (r : ref) :
  DataCollector.fundamental_diagram dc = Some r →
  lifts fundamental_diagrams set_fundamental_diagrams r
    (let! fd := get in
     let vehicle_ids := edge_getLastStepVehicleIDs traci (FundamentalDiagram.edge_id fd) in
     FundamentalDiagram.update (mean_velocity_of traci vehicle_ids) (list_to_set vehicle_ids))
    (DataCollector.step_fundamental_diagram traci dc).
Proof.
  intros Hr. unfold DataCollector.step_fundamental_diagram. rewrite Hr.
  apply lifts_bind; [apply _|apply lifts_on_object|]. intros fd. simpl.
  intros s o Ho.
  destruct (edge_getLastStepVehicleIDs traci (FundamentalDiagram.edge_id fd))
    as [|id ids] eqn:Hids.
  - simpl. by unfold bind, ret.
  - rewrite decide_True by (simpl; lia).
    unfold py_truediv. rewrite decide_False by (simpl; lia).
    by unfold bind, lift_exn.
Qed.

(** ** DataCollector.step: what reaches the attached accumulators *)

Lemma for_each_fmap {S A B} (f : A → B) (l : list A) (body : B → M S unit) :
  for_each (f <$> l) body = for_each l (λ x, body (f x)).
Proof.
  induction l as [|x l IH]; [done|].
  rewrite fmap_cons. simpl. by rewrite IH.
Qed.

Lemma step_succeeded_blocks (traci : Traci) (n : Z) (st : DataCollector.state) :
  succeeded (DataCollector.step traci n st) →
  ∃ w1 w2 w3,
    DataCollector.step_waiting_time traci (DataCollector.self st) (DataCollector.world st)
      = (w1, inr tt) ∧
    DataCollector.step_throughput traci (DataCollector.self st) w1 = (w2, inr tt) ∧
    DataCollector.step_fundamental_diagram traci (DataCollector.self st) w2 = (w3, inr tt) ∧
    DataCollector.step_time_distance_diagram traci (DataCollector.self st) w3
      = (DataCollector.world (DataCollector.step traci n st).1, inr tt).
Proof.
  destruct st as [dc w]. unfold succeeded. rewrite step_eq. simpl.
  unfold step_world, bind.
  destruct (DataCollector.step_waiting_time traci dc w) as [w1 [e1|[]]] eqn:H1;
    simpl; [done|].
  destruct (DataCollector.step_throughput traci dc w1) as [w2 [e2|[]]] eqn:H2;
    simpl; [done|].
  destruct (DataCollector.step_fundamental_diagram traci dc w2) as [w3 [e3|[]]] eqn:H3;
    simpl; [done|].
  destruct (DataCollector.step_time_distance_diagram traci dc w3) as [w4 [e4|[]]] eqn:H4;
    simpl; [done|].
  intros _. by exists w1, w2, w3.
Qed.

Lemma throughput_block_eq (traci : Traci) (edges : list string) (tp : Throughput.t) :
  throughput_block traci edges tp =
    run_updates
      ((λ edge, (edge, list_to_set (edge_getLastStepVehicleIDs traci edge)))
         <$> default edges (Throughput.edge_ids tp))
      tp.
Proof.
  unfold throughput_block, run_updates, bind, get. rewrite for_each_fmap.
  by destruct (Throughput.edge_ids tp).
Qed.

(** X21. When a step returns with a Throughput accumulator attached, the
    accumulator has received exactly one [update] per edge of its
    [edge_ids], or of the tracked edges when it has none, in list order,
    each with the set of the vehicle identifiers the adapter reports on
    that edge. *)
Theorem step_forwards_throughput (traci : Traci) (n : Z) (st : DataCollector.state)
    (r : ref) (acc : Throughput.t) :
  DataCollector.throughput (DataCollector.self st) = Some r →
  throughputs (DataCollector.world st) !! r = Some acc →
  succeeded (DataCollector.step traci n st) →
  ∃ acc',
    run_updates
      ((λ edge, (edge, list_to_set (edge_getLastStepVehicleIDs traci edge)))
         <$> default (DataCollector.edges (DataCollector.self st)) (Throughput.edge_ids acc))
      acc = (acc', inr tt) ∧
    throughputs (DataCollector.world (DataCollector.step traci n st).1) !! r = Some acc'.
Proof.
  intros Hr Hacc Hok.
  destruct (step_succeeded_blocks traci n st Hok) as (w1 & w2 & w3 & H1 & H2 & H3 & H4).
  pose proof (step_waiting_time_keeps_any throughputs traci (DataCollector.self st)
                ltac:(done) (DataCollector.world st)) as K1.
  pose proof (step_fundamental_diagram_keeps_any throughputs traci (DataCollector.self st)
                ltac:(done) w2) as K3.
  pose proof (step_time_distance_diagram_keeps_any throughputs traci (DataCollector.self st)
                ltac:(done) w3) as K4.
  rewrite H1 in K1. rewrite H3 in K3. rewrite H4 in K4. simpl in *.
  rewrite <- K1 in Hacc.
  rewrite (step_throughput_lifts traci _ r Hr w1 acc Hacc) in H2.
  rewrite (on_object_eq throughputs set_throughputs r _ w1 acc Hacc) in H2.
  rewrite throughput_block_eq in H2.
  injection H2 as Hw2 Hres.
  exists (run_updates
            ((λ edge, (edge, list_to_set (edge_getLastStepVehicleIDs traci edge)))
               <$> default (DataCollector.edges (DataCollector.self st))
                     (Throughput.edge_ids acc)) acc).1.
  split.
  - destruct (run_updates _ acc) as [acc' res]. simpl in *. by rewrite Hres.
  - rewrite K4, K3, <- Hw2. simpl. by rewrite lookup_insert_eq.
Qed.

Lemma step_forwards_throughput_witness :
  ∃ acc',
    run_updates
      ((λ edge, (edge, list_to_set (edge_getLastStepVehicleIDs sample_traci edge)))
         <$> default (DataCollector.edges (DataCollector.self attached_state))
               (Throughput.edge_ids (Throughput.init None)))
      (Throughput.init None) = (acc', inr tt) ∧
    throughputs (DataCollector.world (DataCollector.step sample_traci 0 attached_state).1)
      !! 0%nat = Some acc'.
Proof.
  apply (step_forwards_throughput sample_traci 0 attached_state 0%nat (Throughput.init None)).
  - reflexivity.
  - reflexivity.
  - by vm_compute.
Defined.

(** X22. When a step returns with a FundamentalDiagram attached, the diagram
    has received exactly one [update], with the set of the vehicles the
    adapter reports on the diagram's edge and their mean speed: the sum of
    their speeds over their number, or the int 0 (no division) when the
    edge is empty. *)
Theorem step_forwards_fundamental_diagram (traci : Traci) (n : Z) (st : DataCollector.state)
    (r : ref) (acc : FundamentalDiagram.t) :
  DataCollector.fundamental_diagram (DataCollector.self st) = Some r →
  fundamental_diagrams (DataCollector.world st) !! r = Some acc →
  succeeded (DataCollector.step traci n st) →
  ∃ acc',
    FundamentalDiagram.update
      (mean_velocity_of traci
         (edge_getLastStepVehicleIDs traci (FundamentalDiagram.edge_id acc)))
      (list_to_set (edge_getLastStepVehicleIDs traci (FundamentalDiagram.edge_id acc)))
      acc = (acc', inr tt) ∧
    fundamental_diagrams (DataCollector.world (DataCollector.step traci n st).1) !! r
      = Some acc'.
Proof.
  intros Hr Hacc Hok.
  destruct (step_succeeded_blocks traci n st Hok) as (w1 & w2 & w3 & H1 & H2 & H3 & H4).
  pose proof (step_waiting_time_keeps_any fundamental_diagrams traci (DataCollector.self st)
                ltac:(done) (DataCollector.world st)) as K1.
  pose proof (step_throughput_keeps_any fundamental_diagrams traci (DataCollector.self st)
                ltac:(done) w1) as K2.
  pose proof (step_time_distance_diagram_keeps_any fundamental_diagrams traci
                (DataCollector.self st) ltac:(done) w3) as K4.
  rewrite H1 in K1. rewrite H2 in K2. rewrite H4 in K4. simpl in *.
  rewrite <- K1, <- K2 in Hacc.
  rewrite (step_fundamental_diagram_lifts traci _ r Hr w2 acc Hacc) in H3.
  rewrite (on_object_eq fundamental_diagrams set_fundamental_diagrams r _ w2 acc Hacc) in H3.
  unfold bind at 1 2 in H3. unfold get in H3. simpl in H3.
  injection H3 as Hw3 Hres.
  exists (FundamentalDiagram.update
            (mean_velocity_of traci
               (edge_getLastStepVehicleIDs traci (FundamentalDiagram.edge_id acc)))
            (list_to_set (edge_getLastStepVehicleIDs traci (FundamentalDiagram.edge_id acc)))
            acc).1.
  split.
  - destruct (FundamentalDiagram.update _ _ acc) as [acc' res]. simpl in *.
    by rewrite Hres.
  - rewrite K4, <- Hw3. simpl. by rewrite lookup_insert_eq.
Qed.

Lemma step_forwards_fundamental_diagram_witness :
  ∃ acc',
    FundamentalDiagram.update
      (mean_velocity_of sample_traci
         (edge_getLastStepVehicleIDs sample_traci
            (FundamentalDiagram.edge_id (FundamentalDiagram.init "E0"))))
      (list_to_set
         (edge_getLastStepVehicleIDs sample_traci
            (FundamentalDiagram.edge_id (FundamentalDiagram.init "E0"))))
      (FundamentalDiagram.init "E0") = (acc', inr tt) ∧
    fundamental_diagrams
      (DataCollector.world (DataCollector.step sample_traci 0 attached_state).1) !! 0%nat
      = Some acc'.
Proof.
  apply (step_forwards_fundamental_diagram sample_traci 0 attached_state 0%nat
           (FundamentalDiagram.init "E0")).
  - reflexivity.
  - reflexivity.
  - by vm_compute.
Defined.

(** ** DataCollector.step: the TimeDistance block *)

Lemma py_getitem_first {A} (l : list A) :
  py_getitem l 0 = match head l with Some x => inr x | None => inl IndexError end.
Proof.
  destruct l as [|x l]; [done|].
  unfold py_getitem. by rewrite py_index_front by (simpl; lia).
Qed.

Lemma py_getitem_final {A} (l : list A) :
  py_getitem l (-1) = match last l with Some x => inr x | None => inl IndexError end.
Proof.
  destruct l as [|x l _] using rev_ind; [done|].
  by rewrite py_getitem_last, last_snoc.
Qed.

Lemma record_vehicle_matching traci step_count vehicle (td : TimeDistance.t) :
  route_matches (vehicle_getRoute traci vehicle) (TimeDistance.route_edges td) →
  record_vehicle traci step_count vehicle td =
    TimeDistance.update vehicle (PFloat (vehicle_getDistance traci vehicle)) step_count td.
Proof.
  intros [Hhead Hlast]. unfold record_vehicle, bind, lift_exn, get.
  rewrite py_getitem_first, Hhead, py_getitem_final, Hlast.
  rewrite decide_True by done. by rewrite decide_True by done.
Qed.

Lemma record_vehicle_not_matching traci step_count vehicle (td : TimeDistance.t) :
  ¬ route_matches (vehicle_getRoute traci vehicle) (TimeDistance.route_edges td) →
  (record_vehicle traci step_count vehicle td).1 = td.
Proof.
  intros Hno. unfold record_vehicle, bind, lift_exn, get, ret.
  rewrite py_getitem_first, py_getitem_final.
  destruct (head _) as [origin|] eqn:Hhead; [|done].
  case_decide as Ho; [|done].
  destruct (last _) as [destination|] eqn:Hlast; [|done].
  case_decide as Hd; [|done].
  destruct Hno. split; congruence.
Qed.

Lemma record_vehicle_state traci step_count vehicle (td : TimeDistance.t) :
  (record_vehicle traci step_count vehicle td).1 = td ∨
  (record_vehicle traci step_count vehicle td).1 =
    (TimeDistance.update vehicle (PFloat (vehicle_getDistance traci vehicle)) step_count td).1.
Proof.
  unfold record_vehicle, bind, lift_exn, get, ret.
  destruct (py_getitem _ 0); [by left|].
  case_decide; [|by left].
  destruct (py_getitem _ (-1)); [by left|].
  case_decide; [by right|by left].
Qed.

Lemma TimeDistance_update_lookup_ne (td : TimeDistance.t) vehicle other distance time :
  other ≠ vehicle →
  TimeDistance.data (TimeDistance.update vehicle distance time td).1 !! other
    = TimeDistance.data td !! other.
Proof.
  intros Hne. rewrite TimeDistance_update_eq.
  destruct (py_index _ _); simpl; by rewrite lookup_insert_ne.
Qed.

Lemma for_each_invariant {S A} (I : S → Prop) (l : list A) (body : A → M S unit) :
  (∀ x s, x ∈ l → I s → I (body x s).1) →
  ∀ s, I s → I (for_each l body s).1.
Proof.
  induction l as [|x l IH]; intros Hbody s Hs; simpl; [done|].
  unfold bind. pose proof (Hbody x s (list_elem_of_here _ _) Hs) as Hx.
  destruct (body x s) as [s1 [e|[]]]; simpl in *; [done|].
  apply IH; [|done]. intros y s' Hy. apply Hbody. by apply list_elem_of_further.
Qed.

Lemma for_each_app_inv {S A} (l1 l2 : list A) (body : A → M S unit) s s' :
  for_each (l1 ++ l2) body s = (s', inr tt) →
  ∃ s1, for_each l1 body s = (s1, inr tt) ∧ for_each l2 body s1 = (s', inr tt).
Proof.
  revert s. induction l1 as [|x l1 IH]; intros s; simpl.
  - intros H. by exists s.
  - unfold bind. destruct (body x s) as [s1 [e|[]]]; [done|]. apply IH.
Qed.

Lemma time_distance_block_unmatched traci step_count (td : TimeDistance.t) vehicle :
  ¬ (vehicle ∈ vehicle_getIDList traci ∧
     (vehicle ∉ vehicle_getTeleportingIDList traci) ∧
     route_matches (vehicle_getRoute traci vehicle) (TimeDistance.route_edges td)) →
  TimeDistance.data (time_distance_block traci step_count td).1 !! vehicle
    = TimeDistance.data td !! vehicle.
Proof.
  intros Hno. unfold time_distance_block, bind, get.
  case_decide; [|done]. simpl.
  apply (for_each_invariant
           (λ s, TimeDistance.route_edges s = TimeDistance.route_edges td ∧
                 TimeDistance.data s !! vehicle = TimeDistance.data td !! vehicle));
    [|done].
  intros x s Hx [Hre Hdata].
  apply elem_of_elements, elem_of_difference in Hx as [Hin Hout].
  rewrite elem_of_list_to_set in Hin. rewrite elem_of_list_to_set in Hout.
  destruct (decide (x = vehicle)) as [->|Hne].
  - rewrite record_vehicle_not_matching; [done|].
    rewrite Hre. intros Hmatch. by apply Hno.
  - destruct (record_vehicle_state traci step_count x s) as [->| ->]; [done|].
    destruct (TimeDistance_update_config s x
                (PFloat (vehicle_getDistance traci x)) step_count) as (_ & -> & _).
    by rewrite TimeDistance_update_lookup_ne.
Qed.

Lemma time_distance_block_records traci step_count (td td' : TimeDistance.t)
    vehicle start stop :
  TimeDistance_wf td →
  TimeDistance.timespan td = (start, stop) →
  start <= step_count < stop →
  vehicle ∈ vehicle_getIDList traci →
  vehicle ∉ vehicle_getTeleportingIDList traci →
  route_matches (vehicle_getRoute traci vehicle) (TimeDistance.route_edges td) →
  time_distance_block traci step_count td = (td', inr tt) →
  ∃ slots,
    TimeDistance.data td' !! vehicle = Some slots ∧
    Z.of_nat (length slots) = stop - start ∧
    slots !! Z.to_nat (step_count - start)
      = Some (PFloat (vehicle_getDistance traci vehicle)).
Proof.
  intros Hwf Hspan Hwin Hin Hout Hmatch.
  unfold time_distance_block, bind, get. rewrite Hspan. simpl.
  rewrite decide_True by lia.
  set (vehicles := list_to_set (vehicle_getIDList traci)
                   ∖ list_to_set (vehicle_getTeleportingIDList traci) : gset string).
  assert (Hv : vehicle ∈ elements vehicles).
  { apply elem_of_elements, elem_of_difference.
    rewrite !elem_of_list_to_set. done. }
  pose proof (NoDup_elements vehicles) as Hnodup.
  apply list_elem_of_split in Hv as (l1 & l2 & Hsplit). rewrite Hsplit in Hnodup |- *.
  apply NoDup_app in Hnodup as (_ & _ & Hnodup2).
  apply NoDup_cons in Hnodup2 as [Hnotin2 _].
  intros Hrun. apply for_each_app_inv in Hrun as (s1 & Hrun1 & Hrun2).
  set (I := λ s : TimeDistance.t,
         TimeDistance_wf s ∧ TimeDistance.timespan s = (start, stop) ∧
         TimeDistance.route_edges s = TimeDistance.route_edges td).
  assert (Hkeep : ∀ x s, I s → I (record_vehicle traci step_count x s).1).
  { intros x s (Hwfs & Hspans & Hres). unfold I.
    destruct (record_vehicle_state traci step_count x s) as [->| ->]; [done|].
    destruct (TimeDistance_update_config s x
                (PFloat (vehicle_getDistance traci x)) step_count) as (Ht & Hr & _).
    rewrite Ht, Hr. split; [by apply TimeDistance_update_wf|done]. }
  assert (H1 : I s1).
  { pose proof (for_each_invariant I l1 (record_vehicle traci step_count)
                  (λ x s _, Hkeep x s) td) as Hinv.
    rewrite Hrun1 in Hinv. apply Hinv. done. }
  destruct H1 as (Hwf1 & Hspan1 & Hre1).
  simpl in Hrun2. unfold bind in Hrun2.
  rewrite record_vehicle_matching in Hrun2 by (by rewrite Hre1).
  rewrite (TimeDistance_update_in_window s1 vehicle _ start stop step_count
             Hwf1 Hspan1 Hwin) in Hrun2.
  set (slots := <[Z.to_nat (step_count - start) :=
                    PFloat (vehicle_getDistance traci vehicle)]> (slots_of s1 vehicle)) in *.
  assert (Hkeep2 : ∀ x s, x ∈ l2 →
            TimeDistance.data s !! vehicle = Some slots →
            TimeDistance.data (record_vehicle traci step_count x s).1 !! vehicle
              = Some slots).
  { intros x s Hx Hs. assert (vehicle ≠ x) by (by intros ->).
    destruct (record_vehicle_state traci step_count x s) as [->| ->]; [done|].
    by rewrite TimeDistance_update_lookup_ne. }
  pose proof (for_each_invariant
                (λ s, TimeDistance.data s !! vehicle = Some slots)
                l2 (record_vehicle traci step_count) Hkeep2) as Hinv2.
  specialize (Hinv2 (TimeDistance.set_data
                       (λ _, <[vehicle := slots]> (TimeDistance.data s1)) s1)).
  simpl in Hinv2. rewrite lookup_insert_eq in Hinv2. specialize (Hinv2 eq_refl).
  rewrite Hrun2 in Hinv2. simpl in Hinv2.
  exists slots. split; [done|].
  pose proof (slots_of_length s1 vehicle Hwf1) as Hlen.
  destruct Hwf1 as (Hdiff1 & _). rewrite Hspan1 in Hdiff1. simpl in Hdiff1.
  unfold slots. rewrite length_insert, Hlen, Hdiff1. split; [lia|].
  apply list_lookup_insert_eq. rewrite Hlen, Hdiff1. lia.
Qed.

Lemma step_time_distance_after (traci : Traci) (n : Z) (st : DataCollector.state)
    (r : ref) (acc : TimeDistance.t) :
  DataCollector.time_distance_diagram (DataCollector.self st) = Some r →
  time_distances (DataCollector.world st) !! r = Some acc →
  time_distances (DataCollector.world (DataCollector.step traci n st).1) !! r = Some acc ∨
  time_distances (DataCollector.world (DataCollector.step traci n st).1) !! r
    = Some (time_distance_block traci
              (DataCollector.step_count (DataCollector.self st)) acc).1.
Proof.
  intros Hr Hacc. rewrite step_world_of_step.
  destruct st as [dc w]. simpl in *. unfold step_world, bind.
  pose proof (step_waiting_time_keeps_any time_distances traci dc ltac:(done) w) as K1.
  destruct (DataCollector.step_waiting_time traci dc w) as [w1 [e1|[]]]; simpl in *;
    [left; by rewrite K1|].
  pose proof (step_throughput_keeps_any time_distances traci dc ltac:(done) w1) as K2.
  destruct (DataCollector.step_throughput traci dc w1) as [w2 [e2|[]]]; simpl in *;
    [left; by rewrite K2, K1|].
  pose proof (step_fundamental_diagram_keeps_any time_distances traci dc ltac:(done) w2)
    as K3.
  destruct (DataCollector.step_fundamental_diagram traci dc w2) as [w3 [e3|[]]];
    simpl in *; [left; by rewrite K3, K2, K1|].
  rewrite <- K1, <- K2, <- K3 in Hacc.
  rewrite (step_time_distance_diagram_lifts traci dc r Hr w3 acc Hacc).
  rewrite (on_object_eq time_distances set_time_distances r _ w3 acc Hacc). simpl.
  right. by rewrite lookup_insert_eq.
Qed.

(** X23. A step whose step count lies outside the window of the attached
    TimeDistance accumulator leaves that accumulator exactly as it was:
    the window is checked by the collector before any vehicle is looked
    at. *)
Theorem step_outside_window (traci : Traci) (n : Z) (st : DataCollector.state)
    (r : ref) (acc : TimeDistance.t) :
  DataCollector.time_distance_diagram (DataCollector.self st) = Some r →
  time_distances (DataCollector.world st) !! r = Some acc →
  ¬ ((TimeDistance.timespan acc).1 <= DataCollector.step_count (DataCollector.self st)
     ∧ (TimeDistance.timespan acc).2 > DataCollector.step_count (DataCollector.self st)) →
  time_distances (DataCollector.world (DataCollector.step traci n st).1) !! r = Some acc.
Proof.
  intros Hr Hacc Hout.
  destruct (step_time_distance_after traci n st r acc Hr Hacc) as [->| ->]; [done|].
  unfold time_distance_block, bind, get. by rewrite decide_False.
Qed.

Lemma step_outside_window_witness :
  time_distances
    (DataCollector.world
       (DataCollector.step sample_traci 0
          {| DataCollector.self :=
               DataCollector.set_step_count 3 (DataCollector.self attached_state);
             DataCollector.world := DataCollector.world attached_state |}).1) !! 0%nat
  = Some (TimeDistance.init ("E0", "E1") (0, 3)).
Proof.
  apply (step_outside_window sample_traci 0
           {| DataCollector.self :=
                DataCollector.set_step_count 3 (DataCollector.self attached_state);
              DataCollector.world := DataCollector.world attached_state |}
           0%nat (TimeDistance.init ("E0", "E1") (0, 3))).
  - reflexivity.
  - reflexivity.
  - simpl. lia.
Defined.

(** X24. A step records no sample for a vehicle that is not listed by the
    adapter, is teleporting, or whose route does not start at the first
    and end at the second route edge of the attached TimeDistance
    accumulator: what the accumulator holds for that vehicle is the same
    after the step, whether the step returns or raises. *)
Theorem step_skips_unmatched_vehicle (traci : Traci) (n : Z) (st : DataCollector.state)
    (r : ref) (acc : TimeDistance.t) (vehicle : string) :
  DataCollector.time_distance_diagram (DataCollector.self st) = Some r →
  time_distances (DataCollector.world st) !! r = Some acc →
  ¬ (vehicle ∈ vehicle_getIDList traci ∧
     (vehicle ∉ vehicle_getTeleportingIDList traci) ∧
     route_matches (vehicle_getRoute traci vehicle) (TimeDistance.route_edges acc)) →
  ∃ acc',
    time_distances (DataCollector.world (DataCollector.step traci n st).1) !! r = Some acc' ∧
    TimeDistance.data acc' !! vehicle = TimeDistance.data acc !! vehicle.
Proof.
  intros Hr Hacc Hno.
  destruct (step_time_distance_after traci n st r acc Hr Hacc) as [->| ->].
  - by exists acc.
  - eexists. split; [done|]. by apply time_distance_block_unmatched.
Qed.

Lemma step_skips_unmatched_vehicle_witness :
  ∃ acc',
    time_distances
      (DataCollector.world (DataCollector.step sample_traci 0 attached_state).1) !! 0%nat
      = Some acc' ∧
    TimeDistance.data acc' !! "veh9"
      = TimeDistance.data (TimeDistance.init ("E0", "E1") (0, 3)) !! "veh9".
Proof.
  apply (step_skips_unmatched_vehicle sample_traci 0 attached_state 0%nat
           (TimeDistance.init ("E0", "E1") (0, 3)) "veh9").
  - reflexivity.
  - reflexivity.
  - intros [Hin _]. apply list_elem_of_In in Hin. simpl in Hin.
    destruct Hin as [Hin|[Hin|[]]]; discriminate Hin.
Defined.

(** X25. When a step inside the window returns with a TimeDistance accumulator
    attached, every vehicle the adapter lists that is not teleporting and
    whose route starts at the first and ends at the second route edge has
    its distance in the slot of this step, [step_count - start], of a slot
    array of the window's length. *)
Theorem step_records_matching_vehicle (traci : Traci) (n : Z) (st : DataCollector.state)
    (r : ref) (acc : TimeDistance.t) (vehicle : string) (start stop : Z) :
  DataCollector.time_distance_diagram (DataCollector.self st) = Some r →
  time_distances (DataCollector.world st) !! r = Some acc →
  TimeDistance_wf acc →
  TimeDistance.timespan acc = (start, stop) →
  start <= DataCollector.step_count (DataCollector.self st) < stop →
  vehicle ∈ vehicle_getIDList traci →
  vehicle ∉ vehicle_getTeleportingIDList traci →
  route_matches (vehicle_getRoute traci vehicle) (TimeDistance.route_edges acc) →
  succeeded (DataCollector.step traci n st) →
  ∃ acc' slots,
    time_distances (DataCollector.world (DataCollector.step traci n st).1) !! r = Some acc' ∧
    TimeDistance.data acc' !! vehicle = Some slots ∧
    Z.of_nat (length slots) = stop - start ∧
    slots !! Z.to_nat (DataCollector.step_count (DataCollector.self st) - start)
      = Some (PFloat (vehicle_getDistance traci vehicle)).
Proof.
  intros Hr Hacc Hwf Hspan Hwin Hin Hout Hmatch Hok.
  destruct (step_succeeded_blocks traci n st Hok) as (w1 & w2 & w3 & H1 & H2 & H3 & H4).
  pose proof (step_waiting_time_keeps_any time_distances traci (DataCollector.self st)
                ltac:(done) (DataCollector.world st)) as K1.
  pose proof (step_throughput_keeps_any time_distances traci (DataCollector.self st)
                ltac:(done) w1) as K2.
  pose proof (step_fundamental_diagram_keeps_any time_distances traci
                (DataCollector.self st) ltac:(done) w2) as K3.
  rewrite H1 in K1. rewrite H2 in K2. rewrite H3 in K3. simpl in *.
  rewrite <- K1, <- K2, <- K3 in Hacc.
  rewrite (step_time_distance_diagram_lifts traci _ r Hr w3 acc Hacc) in H4.
  rewrite (on_object_eq time_distances set_time_distances r _ w3 acc Hacc) in H4.
  injection H4 as Hw4 Hres.
  destruct (time_distance_block traci (DataCollector.step_count (DataCollector.self st)) acc)
    as [acc' res] eqn:Hblock.
  simpl in *. subst res.
  destruct (time_distance_block_records traci _ acc acc' vehicle start stop
              Hwf Hspan Hwin Hin Hout Hmatch Hblock) as (slots & Hslots & Hlen & Hslot).
  exists acc', slots. split; [|done].
  rewrite <- Hw4. simpl. by rewrite lookup_insert_eq.
Qed.

Lemma step_records_matching_vehicle_witness :
  ∃ acc' slots,
    time_distances
      (DataCollector.world (DataCollector.step sample_traci 0 attached_state).1) !! 0%nat
      = Some acc' ∧
    TimeDistance.data acc' !! "veh0" = Some slots ∧
    Z.of_nat (length slots) = 3 - 0 ∧
    slots !! Z.to_nat (DataCollector.step_count (DataCollector.self attached_state) - 0)
      = Some (PFloat (vehicle_getDistance sample_traci "veh0")).
Proof.
  apply (step_records_matching_vehicle sample_traci 0 attached_state 0%nat
           (TimeDistance.init ("E0", "E1") (0, 3)) "veh0" 0 3).
  - reflexivity.
  - reflexivity.
  - apply TimeDistance_init_wf.
  - reflexivity.
  - simpl. lia.
  - apply list_elem_of_here.
  - intros Hin. apply list_elem_of_In in Hin. destruct Hin.
  - split; reflexivity.
  - by vm_compute.
Defined.

(** ** DataCollector.step: the waiting-time snapshot *)

Lemma snapshot_of_dom traci edges (m : gmap string number) :
  dom (snapshot_of traci edges m) = list_to_set edges ∪ dom m.
Proof.
  revert m. induction edges as [|edge edges IH]; intros m; simpl.
  - set_solver.
  - rewrite IH, dom_insert_L. set_solver.
Qed.

Lemma step_world_waiting_times (traci : Traci) (dc : DataCollector.t) (w : World)
    (wt : ref) (acc : WaitingTime.t) :
  DataCollector.waiting_time dc = Some wt →
  waiting_times w !! wt = Some acc →
  waiting_times (step_world traci dc w).1 !! wt =
    Some {| WaitingTime.waiting_times :=
              WaitingTime.waiting_times acc
              ++ [snapshot_of traci (DataCollector.edges dc) ∅] |}.
Proof.
  intros Hwt Hacc. unfold step_world. unfold bind at 1.
  rewrite (step_waiting_time_eq traci dc w wt acc Hwt Hacc).
  assert (Hrest : keeps waiting_times
            (DataCollector.step_throughput traci dc ;>
             DataCollector.step_fundamental_diagram traci dc ;>
             DataCollector.step_time_distance_diagram traci dc)).
  { apply keeps_bind; [apply step_throughput_keeps|]. intros _.
    apply keeps_bind; [apply step_fundamental_diagram_keeps|]. intros _.
    apply step_time_distance_diagram_keeps. }
  rewrite Hrest. simpl. by rewrite lookup_insert_eq.
Qed.

(** X26. A step with a WaitingTime accumulator attached appends one snapshot
    to it, whatever else the step does; the snapshot has an entry for
    exactly the tracked edges, and the entry of an edge is its waiting
    time divided by its vehicle count, or the int 0 when the count is 0. *)
Theorem step_waiting_time_snapshot (traci : Traci) (n : Z) (st : DataCollector.state)
    (wt : ref) (acc : WaitingTime.t) :
  DataCollector.waiting_time (DataCollector.self st) = Some wt →
  waiting_times (DataCollector.world st) !! wt = Some acc →
  ∃ snapshot,
    waiting_times (DataCollector.world (DataCollector.step traci n st).1) !! wt =
      Some {| WaitingTime.waiting_times := WaitingTime.waiting_times acc ++ [snapshot] |} ∧
    dom snapshot = list_to_set (DataCollector.edges (DataCollector.self st)) ∧
    ∀ edge,
      edge ∈ DataCollector.edges (DataCollector.self st) →
      snapshot !! edge =
        Some (if decide (edge_getLastStepVehicleNumber traci edge = 0) then PInt 0
              else PFloat (PrimFloat.div (edge_getWaitingTime traci edge)
                             (float_of_Z (edge_getLastStepVehicleNumber traci edge)))).
Proof.
  intros Hwt Hacc.
  exists (snapshot_of traci (DataCollector.edges (DataCollector.self st)) ∅).
  rewrite step_world_of_step. split; [by apply step_world_waiting_times|]. split.
  - rewrite snapshot_of_dom. set_solver.
  - intros edge Hedge. by rewrite snapshot_of_lookup.
Qed.

Lemma step_waiting_time_snapshot_witness :
  ∃ snapshot,
    waiting_times (DataCollector.world (DataCollector.step sample_traci 0 sample_state).1)
      !! 0%nat =
      Some {| WaitingTime.waiting_times :=
                WaitingTime.waiting_times WaitingTime.init ++ [snapshot] |} ∧
    dom snapshot = list_to_set (DataCollector.edges (DataCollector.self sample_state)) ∧
    ∀ edge,
      edge ∈ DataCollector.edges (DataCollector.self sample_state) →
      snapshot !! edge =
        Some (if decide (edge_getLastStepVehicleNumber sample_traci edge = 0) then PInt 0
              else PFloat (PrimFloat.div (edge_getWaitingTime sample_traci edge)
                             (float_of_Z (edge_getLastStepVehicleNumber sample_traci edge)))).
Proof.
  apply (step_waiting_time_snapshot sample_traci 0 sample_state 0%nat WaitingTime.init).
  - reflexivity.
  - reflexivity.
Defined.

(** ** Runs of several steps *)

Lemma step_self_after (traci : Traci) (n : Z) (st : DataCollector.state) :
  succeeded (DataCollector.step traci n st) →
  DataCollector.self (DataCollector.step traci n st).1
    = DataCollector.set_step_count
        (DataCollector.step_count (DataCollector.self st) + 1) (DataCollector.self st).
Proof.
  destruct st as [dc w]. unfold succeeded. rewrite step_eq.
  by destruct (step_world traci dc w).2.
Qed.

Lemma step_throughput_result (traci : Traci) (n : Z) (st : DataCollector.state)
    (r : ref) (acc : Throughput.t) :
  DataCollector.throughput (DataCollector.self st) = Some r →
  throughputs (DataCollector.world st) !! r = Some acc →
  succeeded (DataCollector.step traci n st) →
  ∃ acc',
    run_updates
      (throughput_calls traci
         (default (DataCollector.edges (DataCollector.self st)) (Throughput.edge_ids acc)))
      acc = (acc', inr tt) ∧
    throughputs (DataCollector.world (DataCollector.step traci n st).1) !! r = Some acc'.
Proof.
  intros Hr Hacc Hok.
  destruct (step_succeeded_blocks traci n st Hok) as (w1 & w2 & w3 & H1 & H2 & H3 & H4).
  pose proof (step_waiting_time_keeps_any throughputs traci (DataCollector.self st)
                ltac:(done) (DataCollector.world st)) as K1.
  pose proof (step_fundamental_diagram_keeps_any throughputs traci (DataCollector.self st)
                ltac:(done) w2) as K3.
  pose proof (step_time_distance_diagram_keeps_any throughputs traci (DataCollector.self st)
                ltac:(done) w3) as K4.
  rewrite H1 in K1. rewrite H3 in K3. rewrite H4 in K4. simpl in *.
  rewrite <- K1 in Hacc.
  rewrite (step_throughput_lifts traci _ r Hr w1 acc Hacc) in H2.
  rewrite (on_object_eq throughputs set_throughputs r _ w1 acc Hacc) in H2.
  rewrite throughput_block_eq in H2. fold (throughput_calls traci
    (default (DataCollector.edges (DataCollector.self st)) (Throughput.edge_ids acc))) in H2.
  injection H2 as Hw2 Hres.
  destruct (run_updates _ acc) as [acc' res]. simpl in *. subst res.
  exists acc'. split; [done|].
  rewrite K4, K3, <- Hw2. simpl. by rewrite lookup_insert_eq.
Qed.

Lemma run_updates_edge_ids calls (tp : Throughput.t) :
  Throughput.edge_ids (run_updates calls tp).1 = Throughput.edge_ids tp.
Proof.
  apply (for_each_invariant (λ s, Throughput.edge_ids s = Throughput.edge_ids tp));
    [|done].
  intros [edge now] s _ <-. simpl. rewrite Throughput_update_cases.
  destruct (Throughput.vehicles_in_edge s !! edge);
    [destruct (Throughput.vehicles_left_count s !! edge)|]; done.
Qed.

Lemma run_steps_cons (traci : Traci) (steps : list Traci) (st : DataCollector.state) :
  succeeded (run_steps (traci :: steps) st) →
  succeeded (DataCollector.step traci 0 st) ∧
  run_steps (traci :: steps) st = run_steps steps (DataCollector.step traci 0 st).1.
Proof.
  unfold succeeded, run_steps. simpl. unfold bind, ret.
  by destruct (DataCollector.step traci 0 st) as [st1 [e|b]].
Qed.

Lemma run_steps_throughput_acc (steps : list Traci) :
  ∀ (st : DataCollector.state) (r : ref) (acc : Throughput.t),
    DataCollector.throughput (DataCollector.self st) = Some r →
    throughputs (DataCollector.world st) !! r = Some acc →
    succeeded (run_steps steps st) →
    ∃ acc',
      run_updates
        (concat ((λ traci,
                    throughput_calls traci
                      (default (DataCollector.edges (DataCollector.self st))
                         (Throughput.edge_ids acc))) <$> steps))
        acc = (acc', inr tt) ∧
      throughputs (DataCollector.world (run_steps steps st).1) !! r = Some acc' ∧
      DataCollector.step_count (DataCollector.self (run_steps steps st).1)
        = DataCollector.step_count (DataCollector.self st) + Z.of_nat (length steps).
Proof.
  induction steps as [|traci steps IH]; intros st r acc Hr Hacc Hok.
  - exists acc. simpl. split; [done|]. split; [done|]. lia.
  - pose proof Hok as Hok'. apply run_steps_cons in Hok as [Hok1 Hrun].
    rewrite Hrun in Hok'.
    destruct (step_throughput_result traci 0 st r acc Hr Hacc Hok1)
      as (acc1 & Hup1 & Hacc1).
    pose proof (step_self_after traci 0 st Hok1) as Hself.
    assert (Hids : Throughput.edge_ids acc1 = Throughput.edge_ids acc).
    { pose proof (run_updates_edge_ids
                    (throughput_calls traci
                       (default (DataCollector.edges (DataCollector.self st))
                          (Throughput.edge_ids acc))) acc) as Hk.
      by rewrite Hup1 in Hk. }
    destruct (IH (DataCollector.step traci 0 st).1 r acc1) as (acc' & Hup & Hfin & Hcount);
      [by rewrite Hself|done|done|].
    rewrite Hself, Hids in Hup. simpl in Hup.
    rewrite Hself in Hcount. simpl in Hcount.
    exists acc'. rewrite Hrun. split; [|split; [done|]].
    + rewrite fmap_cons. simpl. unfold run_updates in *.
      by rewrite (for_each_app _ _ _ _ _ Hup1).
    + rewrite Hcount. simpl. lia.
Qed.

Lemma observations_concat edge (ls : list (list (string * gset string))) :
  observations edge (concat ls) = concat (observations edge <$> ls).
Proof.
  unfold observations. induction ls as [|l ls IH]; [done|].
  simpl. rewrite filter_app, fmap_app. by rewrite IH.
Qed.

Lemma observations_throughput_calls_not_in traci edges edge :
  edge ∉ edges → observations edge (throughput_calls traci edges) = [].
Proof.
  unfold observations, throughput_calls.
  induction edges as [|e edges IH]; intros Hnot; [done|].
  apply not_elem_of_cons in Hnot as [Hne Hnot].
  rewrite fmap_cons, filter_cons. simpl. rewrite decide_False by done. by apply IH.
Qed.

Lemma observations_throughput_calls traci edges edge :
  NoDup edges → edge ∈ edges →
  observations edge (throughput_calls traci edges)
    = [list_to_set (edge_getLastStepVehicleIDs traci edge)].
Proof.
  induction edges as [|e edges IH]; intros Hnodup Hin; [by apply elem_of_nil in Hin|].
  apply NoDup_cons in Hnodup as [Hnot Hnodup].
  unfold observations, throughput_calls in *.
  rewrite fmap_cons, filter_cons. simpl.
  destruct (decide (e = edge)) as [->|Hne].
  - rewrite fmap_cons. simpl. f_equal.
    by apply (observations_throughput_calls_not_in traci edges edge).
  - apply IH; [done|]. apply elem_of_cons in Hin as [->|Hin]; done.
Qed.

(** X27. A run of steps that all return, started with a freshly constructed
    Throughput accumulator attached, leaves for every collected edge (the
    accumulator's [edge_ids], or the tracked edges, listed without
    repetition) one count per step: 0 for the first step and, for every
    later step, the number of vehicles that were on the edge at the
    previous step and are not at this one. The step count has advanced by
    the number of steps. *)
Theorem run_steps_throughput_counts (steps : list Traci) (st : DataCollector.state)
    (r : ref) (edge_ids : option (list string)) (edge : string) :
  DataCollector.throughput (DataCollector.self st) = Some r →
  throughputs (DataCollector.world st) !! r = Some (Throughput.init edge_ids) →
  succeeded (run_steps steps st) →
  NoDup (default (DataCollector.edges (DataCollector.self st)) edge_ids) →
  edge ∈ default (DataCollector.edges (DataCollector.self st)) edge_ids →
  ∃ acc',
    throughputs (DataCollector.world (run_steps steps st).1) !! r = Some acc' ∧
    Throughput.vehicles_left_count acc' !! edge =
      match steps with
      | [] => None
      | _ =>
          Some (departed_counts
                  ((λ traci, list_to_set (edge_getLastStepVehicleIDs traci edge)) <$> steps))
      end ∧
    DataCollector.step_count (DataCollector.self (run_steps steps st).1)
      = DataCollector.step_count (DataCollector.self st) + Z.of_nat (length steps).
Proof.
  intros Hr Hacc Hok Hnodup Hin.
  destruct (run_steps_throughput_acc steps st r _ Hr Hacc Hok) as (acc' & Hrun & Hfin & Hcount).
  simpl in Hrun.
  destruct (Throughput_run_tracks edge_ids
              (concat ((λ traci,
                          throughput_calls traci
                            (default (DataCollector.edges (DataCollector.self st)) edge_ids))
                       <$> steps))) as (tp & Hrun' & Htr).
  rewrite Hrun in Hrun'. injection Hrun' as <-.
  exists acc'. split; [done|]. split; [|done].
  destruct (Htr edge) as [_ ->]. rewrite observations_concat.
  assert (Hobs : concat (observations edge <$>
                    ((λ traci,
                        throughput_calls traci
                          (default (DataCollector.edges (DataCollector.self st)) edge_ids))
                     <$> steps))
                 = (λ traci, list_to_set (edge_getLastStepVehicleIDs traci edge)) <$> steps).
  { clear -Hnodup Hin. induction steps as [|traci steps IH]; [done|].
    rewrite !fmap_cons. simpl. rewrite IH.
    by rewrite observations_throughput_calls. }
  rewrite Hobs. by destruct steps.
Qed.

Lemma run_steps_throughput_counts_witness :
  ∃ acc',
    throughputs (DataCollector.world (run_steps [sample_traci; sample_traci] attached_state).1)
      !! 0%nat = Some acc' ∧
    Throughput.vehicles_left_count acc' !! "E0" =
      Some (departed_counts
              ((λ traci, list_to_set (edge_getLastStepVehicleIDs traci "E0"))
                 <$> [sample_traci; sample_traci])) ∧
    DataCollector.step_count
      (DataCollector.self (run_steps [sample_traci; sample_traci] attached_state).1)
      = DataCollector.step_count (DataCollector.self attached_state) + Z.of_nat 2.
Proof.
  apply (run_steps_throughput_counts [sample_traci; sample_traci] attached_state 0%nat
           None "E0").
  - reflexivity.
  - reflexivity.
  - by vm_compute.
  - simpl. apply NoDup_cons. split; [|apply NoDup_singleton].
    intros Hin. apply list_elem_of_In in Hin. simpl in Hin.
    destruct Hin as [Hin|[]]. discriminate Hin.
  - apply list_elem_of_here.
Defined.

(** X28. A run of steps that all return, with a WaitingTime accumulator
    attached, appends one snapshot per step, in step order, each built from
    the adapter's answers of its step over the same tracked edges. *)
Theorem run_steps_waiting_time (steps : list Traci) :
  ∀ (st : DataCollector.state) (wt : ref) (acc : WaitingTime.t),
    DataCollector.waiting_time (DataCollector.self st) = Some wt →
    waiting_times (DataCollector.world st) !! wt = Some acc →
    succeeded (run_steps steps st) →
    waiting_times (DataCollector.world (run_steps steps st).1) !! wt =
      Some {| WaitingTime.waiting_times :=
                WaitingTime.waiting_times acc
                ++ ((λ traci,
                       snapshot_of traci (DataCollector.edges (DataCollector.self st)) ∅)
                    <$> steps) |}.
Proof.
  induction steps as [|traci steps IH]; intros st wt acc Hwt Hacc Hok.
  - simpl. rewrite app_nil_r. by destruct acc.
  - pose proof Hok as Hok'. apply run_steps_cons in Hok as [Hok1 Hrun].
    rewrite Hrun in Hok'. rewrite Hrun.
    pose proof (step_self_after traci 0 st Hok1) as Hself.
    pose proof (step_world_waiting_times traci (DataCollector.self st)
                  (DataCollector.world st) wt acc Hwt Hacc) as Hstep.
    rewrite <- (step_world_of_step traci 0 st) in Hstep.
    rewrite (IH (DataCollector.step traci 0 st).1 wt _ ltac:(by rewrite Hself) Hstep Hok').
    rewrite Hself. simpl. by rewrite <- app_assoc.
Qed.

Lemma run_steps_waiting_time_witness :
  waiting_times (DataCollector.world (run_steps [sample_traci; sample_traci] sample_state).1)
    !! 0%nat =
    Some {| WaitingTime.waiting_times :=
              WaitingTime.waiting_times WaitingTime.init
              ++ ((λ traci,
                     snapshot_of traci (DataCollector.edges (DataCollector.self sample_state)) ∅)
                  <$> [sample_traci; sample_traci]) |}.
Proof.
  apply (run_steps_waiting_time [sample_traci; sample_traci] sample_state 0%nat
           WaitingTime.init).
  - reflexivity.
  - reflexivity.
  - by vm_compute.
Defined.

(** ** Boundary edges *)

Lemma substring_whole (s : string) : String.substring 0 (String.length s) s = s.
Proof. induction s as [|a s IH]; simpl; [done|]. by rewrite IH. Qed.

Lemma string_split_at (n m : nat) (s : string) :
  (n + m = String.length s)%nat →
  s = String.append (String.substring 0 n s) (String.substring n m s).
Proof.
  revert s. induction n as [|n IH]; intros s Hlen.
  - simpl in Hlen. subst m. rewrite substring_whole. by destruct s.
  - destruct s as [|a s]; [done|]. simpl in *.
    change (String a s = String a (String.append (String.substring 0 n s)
                                     (String.substring n m s))).
    f_equal. apply IH. lia.
Qed.

Lemma substring_after_prefix (p suffix : string) :
  String.substring (String.length p) (String.length suffix) (String.append p suffix) = suffix.
Proof. induction p as [|a p IH]; simpl; [apply substring_whole|done]. Qed.

Lemma string_length_append (p suffix : string) :
  String.length (String.append p suffix) = (String.length p + String.length suffix)%nat.
Proof. induction p as [|a p IH]; simpl; [done|]. by rewrite IH. Qed.

Lemma endswith_iff (s suffix : string) :
  endswith s suffix = true ↔ ∃ p, s = String.append p suffix.
Proof.
  unfold endswith. rewrite andb_true_iff, bool_decide_eq_true, String.eqb_eq. split.
  - intros [Hlen Hsub].
    exists (String.substring 0 (String.length s - String.length suffix) s).
    pose proof (string_split_at (String.length s - String.length suffix)
                  (String.length suffix) s ltac:(lia)) as Hsplit.
    by rewrite Hsub in Hsplit.
  - intros [p ->]. rewrite string_length_append. split; [lia|].
    replace (String.length p + String.length suffix - String.length suffix)%nat
      with (String.length p) by lia.
    apply substring_after_prefix.
Qed.

(** X29. [__init__] treats an edge as a boundary edge exactly when its
    identifier is some string, possibly empty, followed by "-sink" or by
    "-source"; so an edge named just "-sink" is one, and "sink" or
    "E0-sink2" is not. *)
Theorem is_boundary_iff_suffix :
  (∀ edge,
     DataCollector.is_boundary edge = true
     ↔ ∃ p, edge = String.append p "-sink" ∨ edge = String.append p "-source") ∧
  DataCollector.is_boundary "-sink" = true ∧
  DataCollector.is_boundary "sink" = false ∧
  DataCollector.is_boundary "E0-sink2" = false.
Proof.
  split; [|by vm_compute].
  intros edge. unfold DataCollector.is_boundary.
  rewrite orb_true_iff, !endswith_iff. naive_solver.
Qed.
